(** * terraform-provider-auth0: connection/client membership, schema upgrade, sweeper

    A shallow embedding of
    - [createConnectionClient], [readConnectionClient] and
      [deleteConnectionClient] (resource auth0_connection_client),
    - [connectionSchemaUpgradeV0] (internal/auth0/connection/schema.go),
    - the sweeper [Connections] (internal/sweep/connections.go),
    together with the properties the specification states about them. *)

From stdpp Require Import gmap strings list fin_maps pretty.
From Stdlib Require Import ZArith Lia Ascii.

Local Open Scope string_scope.
Local Open Scope list_scope.
Local Set Warnings "-register-all".

(** * Part I: the program *)

(** ** Go's machine integers *)

Module goint.

(** Go's [int] on a 64-bit platform: the result of an addition, reduced to
    the range from -2^63 to 2^63 - 1. *)
Definition wrap (z : Z) : Z := ((z + 2 ^ 63) mod 2 ^ 64 - 2 ^ 63)%Z.

End goint.

(** ** What the code uses of github.com/auth0/go-auth0/management *)

Module management.

(** A Go [error] as the handlers inspect it: either a [management.Error]
    carrying an HTTP status, or any other error value. *)
Inductive error : Type :=
| ManagementError (status : Z) (message : string)
| OtherError (message : string).

Record Connection : Type := mkConnection {
  ID : string;
  Name : string;
  Strategy : string;
  EnabledClients : list string
}.

(** One page of [api.Connection.List]. *)
Record ConnectionList : Type := mkConnectionList {
  Start : Z;
  Limit : Z;
  Total : Z;
  Connections : list Connection
}.

(** [func (l List) HasNext() bool { return l.Total > l.Start+l.Limit }];
    the three fields are Go [int]s, so the sum wraps around. *)
Definition HasNext (l : ConnectionList) : bool :=
  Z.gtb (Total l) (goint.wrap (Start l + Limit l)).

End management.

(** ** Package connection: the auth0_connection_client handlers *)

Module connection.
Import management.

Definition StatusNotFound : Z := 404.

(** [mErr, ok := err.(management.Error); ok && mErr.Status() == http.StatusNotFound] *)
Definition is_not_found (err : error) : bool :=
  match err with
  | ManagementError status _ => Z.eqb status StatusNotFound
  | OtherError _ => false
  end.

(** [diag.Diagnostics] as the handlers build it: [nil], or [diag.FromErr err]. *)
Definition Diagnostics : Type := option error.

Definition FromErr (err : option error) : Diagnostics := err.

(** [schema.ResourceData] of auth0_connection_client: the resource ID and
    the four string attributes connection_id, client_id, name, strategy. *)
Record ResourceData : Type := mkResourceData {
  Id : string;
  attrs : gmap string string
}.

(** [data.Get(key).(string)]: the zero value when the attribute is unset. *)
Definition Get (data : ResourceData) (key : string) : string :=
  default "" (attrs data !! key).

Definition SetId (data : ResourceData) (id : string) : ResourceData :=
  {| Id := id; attrs := attrs data |}.

(** [data.Set(key, value)] on a string attribute of the schema. *)
Definition Set_ (data : ResourceData) (key value : string) : ResourceData :=
  {| Id := Id data; attrs := <[key := value]> (attrs data) |}.

(** ** Handler programs

    A handler is a tree of the effects it performs: calls on the process-wide
    key mutex, calls on the management API, and [resource.UniqueId].  The
    same tree is run sequentially against a remote (below) and interleaved
    with other handlers (module [concurrent]). *)

Inductive event : Type :=
| EvLock (key : string)
| EvUnlock (key : string)
| EvRead (id : string)
| EvUpdate (id : string) (clients : list string)
| EvUniqueId.

Inductive prog (A : Type) : Type :=
| Ret (a : A)
| Lock (key : string) (next : prog A)
| Unlock (key : string) (next : prog A)
| Read (id : string) (next : error + Connection -> prog A)
| Update (id : string) (clients : list string) (next : option error -> prog A)
| UniqueId (next : string -> prog A).

Arguments Ret {A} a.
Arguments Lock {A} key next.
Arguments Unlock {A} key next.
Arguments Read {A} id next.
Arguments Update {A} id clients next.
Arguments UniqueId {A} next.

Fixpoint bind {A B : Type} (p : prog A) (k : A -> prog B) : prog B :=
  match p with
  | Ret a => k a
  | Lock key next => Lock key (bind next k)
  | Unlock key next => Unlock key (bind next k)
  | Read id next => Read id (fun r => bind (next r) k)
  | Update id clients next => Update id clients (fun r => bind (next r) k)
  | UniqueId next => UniqueId (fun r => bind (next r) k)
  end.

(** [defer mutex.Global.Unlock(key)]: the unlock runs when the surrounding
    function returns, after its return expression has been evaluated. *)
Definition defer_Unlock {A : Type} (key : string) (body : prog A) : prog A :=
  bind body (fun r => Unlock key (Ret r)).

(** The range loop of [readConnectionClient]:
    [found := false; for _, c := range clients { if c == clientID { found = true } }] *)
Definition scan_found (clients : list string) (clientID : string) : bool :=
  fold_left (fun found enabledClientID =>
               if String.eqb enabledClientID clientID then true else found)
            clients false.

(** The range loop of [deleteConnectionClient]:
    [for _, c := range clients { if c == clientID { continue }; out = append(out, c) }] *)
Definition drop_client (clients : list string) (clientID : string) : list string :=
  fold_left (fun enabledClients enabledClientID =>
               if String.eqb enabledClientID clientID then enabledClients
               else enabledClients ++ [enabledClientID])
            clients [].

Definition readConnectionClient (data : ResourceData)
  : prog (Diagnostics * ResourceData) :=
  let connectionID := Get data "connection_id" in
  let clientID := Get data "client_id" in
  Read connectionID (fun r =>
    match r with
    | inl err =>
        if is_not_found err then Ret (None, SetId data "")
        else Ret (FromErr (Some err), data)
    | inr connection =>
        let found := scan_found (EnabledClients connection) clientID in
        if negb found then Ret (None, SetId data "")
        else
          let data := Set_ data "name" (Name connection) in
          let data := Set_ data "strategy" (Strategy connection) in
          Ret (FromErr None, data)
    end).

Definition createConnectionClient (data : ResourceData)
  : prog (Diagnostics * ResourceData) :=
  let connectionID := Get data "connection_id" in
  Lock connectionID (defer_Unlock connectionID (
    Read connectionID (fun r =>
      match r with
      | inl err => Ret (FromErr (Some err), data)
      | inr connection =>
          let clientID := Get data "client_id" in
          let enabledClients := EnabledClients connection ++ [clientID] in
          Update connectionID enabledClients (fun r =>
            match r with
            | Some err => Ret (FromErr (Some err), data)
            | None =>
                UniqueId (fun uid =>
                  let data := SetId data uid in
                  readConnectionClient data)
            end)
      end))).

Definition deleteConnectionClient (data : ResourceData)
  : prog (Diagnostics * ResourceData) :=
  let connectionID := Get data "connection_id" in
  Lock connectionID (defer_Unlock connectionID (
    Read connectionID (fun r =>
      match r with
      | inl err =>
          if is_not_found err then Ret (None, SetId data "")
          else Ret (FromErr (Some err), data)
      | inr connection =>
          let clientID := Get data "client_id" in
          let enabledClients := drop_client (EnabledClients connection) clientID in
          Update connectionID enabledClients (fun r =>
            match r with
            | Some err =>
                if is_not_found err then Ret (None, SetId data "")
                else Ret (FromErr (Some err), data)
            | None => Ret (None, SetId data "")
            end)
      end))).

(** ** The remote, as the handlers see it *)

(** [api.Connection.Read], [api.Connection.Update] and [resource.UniqueId]
    against some remote state [W]; every call may change that state. *)
Class ManagementAPI (W : Type) : Type := {
  api_read : string -> W -> (error + Connection) * W;
  api_update : string -> list string -> W -> option error * W;
  api_unique_id : W -> string * W
}.

(** Sequential run of one handler: the value it returns, the remote
    afterwards, and the effects in the order they happened. *)
Fixpoint run {W : Type} `{ManagementAPI W} {A : Type}
    (p : prog A) (w : W) : A * W * list event :=
  match p with
  | Ret a => (a, w, [])
  | Lock key next =>
      let '(a, w', tr) := run next w in (a, w', EvLock key :: tr)
  | Unlock key next =>
      let '(a, w', tr) := run next w in (a, w', EvUnlock key :: tr)
  | Read id next =>
      let '(r, w1) := api_read id w in
      let '(a, w', tr) := run (next r) w1 in (a, w', EvRead id :: tr)
  | Update id clients next =>
      let '(r, w1) := api_update id clients w in
      let '(a, w', tr) := run (next r) w1 in (a, w', EvUpdate id clients :: tr)
  | UniqueId next =>
      let '(r, w1) := api_unique_id w in
      let '(a, w', tr) := run (next r) w1 in (a, w', EvUniqueId :: tr)
  end.

(** ** connectionSchemaUpgradeV0 *)

(** A Go [interface{}] as it occurs in a raw Terraform state. *)
Inductive value : Type :=
| VNil
| VBool (b : bool)
| VInt (n : Z)
| VString (s : string)
| VList (l : list value)
| VMap (m : gmap string value).

(** A call either returns or panics (a failed unchecked type assertion). *)
Inductive outcome (A : Type) : Type :=
| Returned (a : A)
| Panicked.

Arguments Returned {A} a.
Arguments Panicked {A}.

Section SchemaUpgrade.

(** [strconv.Atoi]: the parsed value and the error, [None] standing for [nil]. *)
Variable Atoi : string -> Z * option error.

Definition connectionSchemaUpgradeV0 (state : gmap string value)
  : outcome (gmap string value * option error) :=
  match state !! "options" with
  | None => Returned (state, None)
  | Some options =>
      match options with
      | VList (first :: _) =>
          match first with
          | VMap m =>
              match m !! "strategy_version" with
              | None => Returned (state, None)
              | Some strategyVersion =>
                  match strategyVersion with
                  | VString strategyVersionString =>
                      let '(strategyVersionInt, err) := Atoi strategyVersionString in
                      let m :=
                        match err with
                        | None => <["strategy_version" := VInt strategyVersionInt]> m
                        | Some _ => <["strategy_version" := VInt 0]> m
                        end in
                      let state := <["options" := VList [VMap m]]> state in
                      Returned (state, None)
                  | _ => Returned (state, None)
                  end
              end
          | _ => Panicked
          end
      | _ => Returned (state, None)
      end
  end.

End SchemaUpgrade.

End connection.

(** ** What the code uses of the Go standard library *)

Module strconv.
Import management.

Definition digit (c : ascii) : option Z :=
  let n := Z.of_N (N_of_ascii c) in
  if (48 <=? n)%Z && (n <=? 57)%Z then Some (n - 48)%Z else None.

Fixpoint digits (s : string) (n : Z) : option Z :=
  match s with
  | EmptyString => Some n
  | String ch rest =>
      match digit ch with
      | Some d => digits rest (n * 10 + d)%Z
      | None => None
      end
  end.

Definition ErrSyntax : error := OtherError "strconv.Atoi: invalid syntax".
Definition ErrRange : error := OtherError "strconv.Atoi: value out of range".

(** [strconv.Atoi] on a 64-bit platform: an optional sign, then one or more
    decimal digits; a value outside the [int] range is a range error. *)
Definition Atoi (s : string) : Z * option error :=
  let '(neg, body) :=
    match s with
    | String "-"%char rest => (true, rest)
    | String "+"%char rest => (false, rest)
    | _ => (false, s)
    end in
  match body with
  | EmptyString => (0%Z, Some ErrSyntax)
  | _ =>
      match digits body 0 with
      | None => (0%Z, Some ErrSyntax)
      | Some n =>
          let v := if neg then (- n)%Z else n in
          if (v <? - 2 ^ 63)%Z then ((- 2 ^ 63)%Z, Some ErrRange)
          else if (2 ^ 63 - 1 <? v)%Z then ((2 ^ 63 - 1)%Z, Some ErrRange)
          else (v, None)
      end
  end.

End strconv.

Module strings.

(** [strings.Contains(s, substr)] *)
Fixpoint Contains (s substr : string) : bool :=
  if String.prefix substr s then true
  else match s with
       | EmptyString => false
       | String _ rest => Contains rest substr
       end.

End strings.

(** ** Package sweep: the connection sweeper *)

Module sweep.
Import management.

(** [api.Connection.List] with the page option, and [api.Connection.Delete],
    against some remote state [W]. *)
Class SweepAPI (W : Type) : Type := {
  api_list : Z -> W -> (error + ConnectionList) * W;
  api_delete : string -> W -> option error * W
}.

(** The remote calls of a sweep with what they returned, in order. *)
Inductive call : Type :=
| CList (page : Z) (r : error + ConnectionList)
| CDelete (id : string) (r : option error).

(** [*multierror.Error]: the nil pointer, or the collected [Errors]. *)
Definition multierror : Type := option (list error).

(** [multierror.Append(result, err)]: allocates on a nil receiver and skips a
    nil [err]. *)
Definition Append (result : multierror) (err : option error) : multierror :=
  let errs := default [] result in
  Some (match err with Some e => errs ++ [e] | None => errs end).

(** What the sweeper function returns as its [error]. *)
Inductive sweep_error : Type :=
| ListError (err : error)
| MultiError (errs : list error).

(** [result.ErrorOrNil()] *)
Definition ErrorOrNil (result : multierror) : option sweep_error :=
  match result with
  | None => None
  | Some [] => None
  | Some errs => Some (MultiError errs)
  end.

(** Go's [int] on a 64-bit platform: [page++] wraps around. *)
Definition wrap_int (z : Z) : Z := goint.wrap z.

Section Sweeper.
Context {W : Type} `{SweepAPI W}.

(** The inner loop over [connectionList.Connections]. *)
Fixpoint sweep_page (connections : list Connection) (result : multierror) (w : W)
  : multierror * W * list call :=
  match connections with
  | [] => (result, w, [])
  | connection :: rest =>
      if strings.Contains (Name connection) "Test" then
        let '(r, w1) := api_delete (ID connection) w in
        let '(result', w', tr) := sweep_page rest (Append result r) w1 in
        (result', w', CDelete (ID connection) r :: tr)
      else sweep_page rest result w
  end.

(** The outer [for] loop; [None] as the first component means the fuel ran
    out before the loop was left. *)
Fixpoint sweep_loop (fuel : nat) (page : Z) (result : multierror) (w : W)
  : option (option sweep_error) * W * list call :=
  match fuel with
  | O => (None, w, [])
  | S fuel =>
      let '(r, w1) := api_list page w in
      match r with
      | inl err => (Some (Some (ListError err)), w1, [CList page r])
      | inr connectionList =>
          let '(result, w2, tr) := sweep_page (Connections connectionList) result w1 in
          if negb (HasNext connectionList) then
            (Some (ErrorOrNil result), w2, CList page r :: tr)
          else
            let '(out, w', tr') := sweep_loop fuel (wrap_int (page + 1)) result w2 in
            (out, w', CList page r :: tr ++ tr')
      end
  end.

(** The sweeper function [F] of [Connections], given the API client:
    [var page int; var result *multierror.Error; for { ... }]. *)
Definition Connections (fuel : nat) (w : W)
  : option (option sweep_error) * W * list call :=
  sweep_loop fuel 0 None w.

End Sweeper.

End sweep.

(** ** Package mutex and the interleaving of handlers *)

Module mutex.

(** Modelled from the spec: package internal/mutex (the type behind
    [mutex.Global]) is not among the sources.  The Lock Table is a
    "process-wide mapping from ParentID to Mutex, lazily created, never
    removed"; here a key is mapped to whether its mutex is held. *)
Definition KeyValue : Type := gmap string bool.

(** Modelled from the spec: whether the mutex of [key] is held; a key
    without an entry has never been locked. *)
Definition held (m : KeyValue) (key : string) : bool :=
  default false (m !! key).

(** Modelled from the spec: "Lock(key) blocks the calling thread of control
    until no other thread holds key, then marks it held"; [None] is a
    caller that has to wait. *)
Definition Lock (m : KeyValue) (key : string) : option KeyValue :=
  if held m key then None else Some (<[key := true]> m).

(** Modelled from the spec: "Unlock(key) releases it"; the entry stays.
    (The handlers unlock a key only while they hold it, see
    [thread_ok_advance].) *)
Definition Unlock (m : KeyValue) (key : string) : KeyValue :=
  <[key := false]> m.

End mutex.

Module concurrent.
Import management connection.

(** One membership reconciliation the caller decided to run. *)
Inductive job : Type :=
| Establish (data : ResourceData)
| Observe (data : ResourceData)
| Remove (data : ResourceData).

Definition handler (j : job) : prog (Diagnostics * ResourceData) :=
  match j with
  | Establish data => createConnectionClient data
  | Observe data => readConnectionClient data
  | Remove data => deleteConnectionClient data
  end.

Definition parent (j : job) : string :=
  match j with
  | Establish data | Observe data | Remove data => Get data "connection_id"
  end.

(** A thread of control: what is left of its handler and what it did. *)
Record thread : Type := mkThread {
  code : prog (Diagnostics * ResourceData);
  history : list event
}.

Record system (W : Type) : Type := mkSystem {
  threads : list thread;
  table : mutex.KeyValue;
  world : W
}.

Arguments mkSystem {W} threads table world.
Arguments threads {W} s.
Arguments table {W} s.
Arguments world {W} s.

Definition spawn {W : Type} (jobs : list job) (w : W) : system W :=
  mkSystem (map (fun j => mkThread (handler j) []) jobs) ∅ w.

Section Interleaving.
Context {W : Type} `{ManagementAPI W}.

Definition advance (s : system W) (i : nat) (t : thread)
    (next : prog (Diagnostics * ResourceData)) (e : event)
    (m : mutex.KeyValue) (w : W) : system W :=
  mkSystem (<[i := mkThread next (history t ++ [e])]> (threads s)) m w.

(** Thread [i] performs its next effect; [None] when there is no such
    thread, when it has returned, or when it waits for a held key. *)
Definition step_thread (i : nat) (s : system W) : option (system W) :=
  match threads s !! i with
  | None => None
  | Some t =>
      match code t with
      | Ret _ => None
      | Lock key next =>
          match mutex.Lock (table s) key with
          | None => None
          | Some m => Some (advance s i t next (EvLock key) m (world s))
          end
      | Unlock key next =>
          Some (advance s i t next (EvUnlock key) (mutex.Unlock (table s) key) (world s))
      | Read id next =>
          let '(r, w) := api_read id (world s) in
          Some (advance s i t (next r) (EvRead id) (table s) w)
      | Update id clients next =>
          let '(r, w) := api_update id clients (world s) in
          Some (advance s i t (next r) (EvUpdate id clients) (table s) w)
      | UniqueId next =>
          let '(r, w) := api_unique_id (world s) in
          Some (advance s i t (next r) EvUniqueId (table s) w)
      end
  end.

Definition step (s s' : system W) : Prop :=
  ∃ i, step_thread i s = Some s'.

(** Any interleaving of the threads' effects. *)
Definition reachable (s s' : system W) : Prop := rtc step s s'.

(** A schedule: the thread that moves at each tick. *)
Fixpoint run_schedule (sched : list nat) (s : system W) : option (system W) :=
  match sched with
  | [] => Some s
  | i :: rest =>
      match step_thread i s with
      | None => None
      | Some s' => run_schedule rest s'
      end
  end.

End Interleaving.

(** Whether a thread with history [h] is between its [Lock key] and the
    matching [Unlock key]. *)
Definition holds (key : string) (h : list event) : bool :=
  fold_left (fun b e =>
               match e with
               | EvLock k => if String.eqb k key then true else b
               | EvUnlock k => if String.eqb k key then false else b
               | _ => b
               end) h false.

End concurrent.

(** ** Reference remotes

    Concrete remotes on which the handlers and the sweeper are exercised:
    a store of connections that answers honestly unless a fault is
    scheduled for the call. *)

Module reference.
Import management connection.

Record Remote : Type := mkRemote {
  store : gmap string Connection;
  faults : list (option error);
  issued : nat
}.

(** The fault scheduled for the next API call, if any. *)
Definition next_fault (r : Remote) : option error * Remote :=
  match faults r with
  | [] => (None, r)
  | f :: rest => (f, mkRemote (store r) rest (issued r))
  end.

Definition NotFound : error := ManagementError 404 "Not Found".

Definition remote_read (id : string) (r : Remote) : (error + Connection) * Remote :=
  let '(f, r) := next_fault r in
  match f with
  | Some err => (inl err, r)
  | None =>
      match store r !! id with
      | Some c => (inr c, r)
      | None => (inl NotFound, r)
      end
  end.

Definition remote_update (id : string) (clients : list string) (r : Remote)
  : option error * Remote :=
  let '(f, r) := next_fault r in
  match f with
  | Some err => (Some err, r)
  | None =>
      match store r !! id with
      | Some c =>
          let c := mkConnection (ID c) (Name c) (Strategy c) clients in
          (None, mkRemote (<[id := c]> (store r)) (faults r) (issued r))
      | None => (Some NotFound, r)
      end
  end.

Definition remote_unique_id (r : Remote) : string * Remote :=
  ("terraform-" +:+ pretty (issued r),
   mkRemote (store r) (faults r) (S (issued r))).

#[export] Instance remote_api : ManagementAPI Remote := {
  api_read := remote_read;
  api_update := remote_update;
  api_unique_id := remote_unique_id
}.

(** A tenant for the sweeper: its connections, served [per_page] at a
    time; listing a page in [list_faults] and deleting an ID in
    [delete_faults] fail. *)
Record Tenant : Type := mkTenant {
  conns : list Connection;
  per_page : nat;
  list_faults : gmap Z error;
  delete_faults : gmap string error
}.

Definition tenant_list (page : Z) (t : Tenant) : (error + ConnectionList) * Tenant :=
  match list_faults t !! page with
  | Some err => (inl err, t)
  | None =>
      let start := (Z.to_nat page * per_page t)%nat in
      (inr (mkConnectionList (Z.of_nat start) (Z.of_nat (per_page t))
              (Z.of_nat (length (conns t)))
              (take (per_page t) (drop start (conns t)))), t)
  end.

Definition tenant_delete (id : string) (t : Tenant) : option error * Tenant :=
  match delete_faults t !! id with
  | Some err => (Some err, t)
  | None =>
      (None, mkTenant (filter (fun c => ID c ≠ id) (conns t)) (per_page t)
               (list_faults t) (delete_faults t))
  end.

#[export] Instance tenant_api : sweep.SweepAPI Tenant := {
  api_list := tenant_list;
  api_delete := tenant_delete
}.

End reference.

(** ** Sample inputs *)

Module sample.
Import management connection reference.

(** The record of "client cli_B is enabled on connection con_1". *)
Definition data : ResourceData :=
  mkResourceData "" {[ "connection_id" := "con_1"; "client_id" := "cli_B" ]}.

Definition conn (clients : list string) : Connection :=
  mkConnection "con_1" "corp-directory" "auth0" clients.

(** A remote that holds con_1 with the given members and has the given
    faults scheduled. *)
Definition remote (clients : list string) (fs : list (option error)) : Remote :=
  mkRemote {[ "con_1" := conn clients ]} fs 0.

(** A remote without con_1. *)
Definition empty_remote : Remote := mkRemote ∅ [] 0.

Definition Forbidden : error := ManagementError 403 "Forbidden".

(** The options block of a version 0 state with the given strategy_version. *)
Definition options_v0 (version : value) : gmap string value :=
  {[ "strategy_version" := version; "domain" := VString "example.com" ]}.

(** A version 0 state of an auth0_connection. *)
Definition state_v0 (version : value) : gmap string value :=
  {[ "name" := VString "corp-directory";
     "options" := VList [VMap (options_v0 version)] ]}.

(** A state whose options list does not start with a map. *)
Definition misshaped_state : gmap string value :=
  {[ "name" := VString "corp-directory"; "options" := VList [VString "oops"] ]}.

(** A tenant with four connections, three of them created by tests,
    listed two per page; deleting con_a is refused, and listing fails on
    the pages in [list_faults]. *)
Definition tenant (list_faults : gmap Z error) : Tenant :=
  mkTenant [mkConnection "con_a" "Test-okta" "okta" [];
            mkConnection "con_b" "corp-directory" "auth0" [];
            mkConnection "con_c" "Acceptance Test ldap" "ad" [];
            mkConnection "con_d" "Test saml" "samlp" []]
           2 list_faults {[ "con_a" := Forbidden ]}.

(** The record of "client [clientID] is enabled on connection
    [connectionID]". *)
Definition membership (connectionID clientID : string) : ResourceData :=
  mkResourceData "" {[ "connection_id" := connectionID; "client_id" := clientID ]}.

(** Two establishments on con_1 and one removal on con_2, to be run
    concurrently. *)
Definition jobs : list concurrent.job :=
  [concurrent.Establish (membership "con_1" "cli_B");
   concurrent.Establish (membership "con_1" "cli_C");
   concurrent.Remove (membership "con_2" "cli_A")].

Definition two_connections : Remote :=
  mkRemote {[ "con_1" := conn ["cli_A"];
              "con_2" := mkConnection "con_2" "partners" "auth0" ["cli_A"; "cli_D"] ]}
           [] 0.

End sample.

Import management connection.

(** ** Package action: the auth0_trigger_binding handlers *)

Module action.

(** [api.Action.Bindings] and [api.Action.UpdateBindings] against some
    remote state [W], for bindings of type [B]. *)
Class TriggerAPI (B W : Type) : Type := {
  api_bindings : string → W → (error + list B) * W;
  api_update_bindings : string → list B → W → option error * W
}.

(** [schema.ResourceData] of auth0_trigger_binding: the resource ID, the
    trigger attribute, the actions of the raw configuration (of type [C])
    and the actions attribute of the state (of type [F], unset at first). *)
Record TriggerData (C F : Type) : Type := mkTriggerData {
  t_Id : string;
  t_trigger : string;
  t_raw_actions : C;
  t_actions : option F
}.

Arguments mkTriggerData {C F} _ _ _ _.
Arguments t_Id {C F} _.
Arguments t_trigger {C F} _.
Arguments t_raw_actions {C F} _.
Arguments t_actions {C F} _.

(** The remote calls of a handler, in order. *)
Inductive call (B : Type) : Type :=
| CBindings (id : string)
| CUpdateBindings (id : string) (bindings : list B).

Arguments CBindings {B} id.
Arguments CUpdateBindings {B} id bindings.

Section TriggerBinding.
Context {B C F W : Type} `{TriggerAPI B W}.

(** [expandTriggerBindings] and [flattenTriggerBindingActions] are defined
    in a file that is not among the sources; the handlers are stated for
    any two such functions. *)
Variable expandTriggerBindings : C → list B.
Variable flattenTriggerBindingActions : list B → F.

Definition t_SetId (d : TriggerData C F) (id : string) : TriggerData C F :=
  mkTriggerData id (t_trigger d) (t_raw_actions d) (t_actions d).

(** [d.Set("actions", v)] *)
Definition t_SetActions (d : TriggerData C F) (v : F) : TriggerData C F :=
  mkTriggerData (t_Id d) (t_trigger d) (t_raw_actions d) (Some v).

Definition readTriggerBinding (d : TriggerData C F) (w : W)
  : Diagnostics * TriggerData C F * W * list (call B) :=
  let '(r, w1) := api_bindings (t_Id d) w in
  match r with
  | inl err =>
      if is_not_found err then (None, t_SetId d "", w1, [CBindings (t_Id d)])
      else (FromErr (Some err), d, w1, [CBindings (t_Id d)])
  | inr triggerBindings =>
      (FromErr None,
       t_SetActions d (flattenTriggerBindingActions triggerBindings),
       w1, [CBindings (t_Id d)])
  end.

Definition createTriggerBinding (d : TriggerData C F) (w : W)
  : Diagnostics * TriggerData C F * W * list (call B) :=
  let id := t_trigger d in
  let triggerBindings := expandTriggerBindings (t_raw_actions d) in
  let '(r, w1) := api_update_bindings id triggerBindings w in
  match r with
  | Some err => (FromErr (Some err), d, w1, [CUpdateBindings id triggerBindings])
  | None =>
      let d := t_SetId d id in
      let '(diags, d', w2, tr) := readTriggerBinding d w1 in
      (diags, d', w2, CUpdateBindings id triggerBindings :: tr)
  end.

Definition updateTriggerBinding (d : TriggerData C F) (w : W)
  : Diagnostics * TriggerData C F * W * list (call B) :=
  let triggerBindings := expandTriggerBindings (t_raw_actions d) in
  let '(r, w1) := api_update_bindings (t_Id d) triggerBindings w in
  match r with
  | Some err => (FromErr (Some err), d, w1, [CUpdateBindings (t_Id d) triggerBindings])
  | None =>
      let '(diags, d', w2, tr) := readTriggerBinding d w1 in
      (diags, d', w2, CUpdateBindings (t_Id d) triggerBindings :: tr)
  end.

Definition deleteTriggerBinding (d : TriggerData C F) (w : W)
  : Diagnostics * TriggerData C F * W * list (call B) :=
  let '(r, w1) := api_update_bindings (t_Id d) [] w in
  match r with
  | Some err =>
      if is_not_found err then (None, t_SetId d "", w1, [CUpdateBindings (t_Id d) []])
      else (FromErr (Some err), d, w1, [CUpdateBindings (t_Id d) []])
  | None => (None, d, w1, [CUpdateBindings (t_Id d) []])
  end.

End TriggerBinding.

(** A reference remote for triggers: the bindings of each trigger it
    knows, answered honestly unless a fault is scheduled for the call. *)
Record Triggers (B : Type) : Type := mkTriggers {
  bound : gmap string (list B);
  t_faults : list (option error)
}.

Arguments mkTriggers {B} _ _.
Arguments bound {B} _.
Arguments t_faults {B} _.

Definition t_next_fault {B : Type} (r : Triggers B) : option error * Triggers B :=
  match t_faults r with
  | [] => (None, r)
  | f :: rest => (f, mkTriggers (bound r) rest)
  end.

Definition triggers_bindings {B : Type} (id : string) (r : Triggers B)
  : (error + list B) * Triggers B :=
  let '(f, r) := t_next_fault r in
  match f with
  | Some err => (inl err, r)
  | None =>
      match bound r !! id with
      | Some bs => (inr bs, r)
      | None => (inl reference.NotFound, r)
      end
  end.

Definition triggers_update_bindings {B : Type} (id : string) (bs : list B) (r : Triggers B)
  : option error * Triggers B :=
  let '(f, r) := t_next_fault r in
  match f with
  | Some err => (Some err, r)
  | None =>
      match bound r !! id with
      | Some _ => (None, mkTriggers (<[id := bs]> (bound r)) (t_faults r))
      | None => (Some reference.NotFound, r)
      end
  end.

#[export] Instance triggers_api (B : Type) : TriggerAPI B (Triggers B) := {
  api_bindings := triggers_bindings;
  api_update_bindings := triggers_update_bindings
}.

End action.

(** ** Package connection, continued: connectionSchemaUpgradeV1 *)

(** The value [[]map[string][]interface{}{{"username": []interface{}{v}}}]
    that takes the place of the validation option [v]. *)
Definition username_validation (validationOption : value) : value :=
  VList [VMap {[ "username" := VList [validationOption] ]}].

Definition connectionSchemaUpgradeV1 (state : gmap string value)
  : outcome (gmap string value * option error) :=
  match state !! "options" with
  | None => Returned (state, None)
  | Some options =>
      match options with
      | VList (first :: _) =>
          match first with
          | VMap m =>
              match m !! "validation" with
              | None => Returned (state, None)
              | Some validationOption =>
                  let m := <["validation" := username_validation validationOption]> m in
                  let state := <["options" := VList [VMap m]]> state in
                  Returned (state, None)
              end
          | _ => Panicked
          end
      | _ => Returned (state, None)
      end
  end.

(** The map that is the first element of the options list of a state,
    when there is one. *)
Definition first_option (state : gmap string value) : option (gmap string value) :=
  match state !! "options" with
  | Some (VList (VMap m :: _)) => Some m
  | _ => None
  end.

(** The first options map of a version 0 state that has a validation
    entry as well, and that state. *)
Definition options_with_validation : gmap string value :=
  {[ "strategy_version" := VString "2";
     "validation" := VMap {[ "min" := VInt 1 ]} ]}.

Definition state_with_validation : gmap string value :=
  {[ "name" := VString "corp-directory";
     "options" := VList [VMap options_with_validation] ]}.

(** The first options map of a state and the validation entry it carries,
    when there are such. *)
Definition validation_option (state : gmap string value)
  : option (gmap string value * value) :=
  match first_option state with
  | Some m =>
      match m !! "validation" with
      | Some v => Some (m, v)
      | None => None
      end
  | None => None
  end.

(** [state'] has the keys of [state] and its values at all of them but
    "options"; its first options map has the keys of the one of [state]
    and its values at all of them but [key]. *)
Definition keeps_other_entries (key : string) (state state' : gmap string value) : Prop :=
  dom state' = dom state
  ∧ (∀ k, k ≠ "options" → state' !! k = state !! k)
  ∧ (∀ m, first_option state = Some m →
       ∃ m', first_option state' = Some m' ∧ dom m' = dom m
             ∧ ∀ k, k ≠ key → m' !! k = m !! k).

(** ** Vocabulary of the statements *)

(** Number of occurrences of a client ID in a members list. *)
Definition occurrences (clientID : string) (clients : list string) : nat :=
  length (filter (λ c, c = clientID) clients).

(** The remote calls of a trace that happen while [key] is not locked by
    the thread, [held] telling whether it is at the start. *)
Fixpoint outside_lock (key : string) (held : bool) (tr : list event) : list event :=
  match tr with
  | [] => []
  | EvLock k :: rest => outside_lock key (if String.eqb k key then true else held) rest
  | EvUnlock k :: rest => outside_lock key (if String.eqb k key then false else held) rest
  | e :: rest => (if held then [] else [e]) ++ outside_lock key held rest
  end.

(** Within a trace, the unlock of [key] comes before a later fetch of
    [key]: the lock is released before that read runs. *)
Definition released_before_read (key : string) (tr : list event) : Prop :=
  ∃ t1 t2, tr = t1 ++ EvUnlock key :: t2 ∧ EvRead key ∈ t2.

(** The map that is the first element of the options list of a state and
    the string it carries under strategy_version, when there are such. *)
Definition string_strategy_version (state : gmap string value)
  : option (gmap string value * string) :=
  match state !! "options" with
  | Some (VList (VMap m :: _)) =>
      match m !! "strategy_version" with
      | Some (VString s) => Some (m, s)
      | _ => None
      end
  | _ => None
  end.

(** The options of a state have the shape the schema gives them: when they
    are a non-empty list, its first element is a map. *)
Definition options_well_shaped (state : gmap string value) : bool :=
  match state !! "options" with
  | Some (VList (VMap _ :: _)) => true
  | Some (VList (_ :: _)) => false
  | _ => true
  end.

(** The integer that replaces the string [s]: what [Atoi] parsed, or 0
    when it reported an error. *)
Definition migrated_version (Atoi : string → Z * option error) (s : string) : Z :=
  match Atoi s with
  | (n, None) => n
  | (_, Some _) => 0
  end.

(** The pages a sweep listed, with what the listing returned. *)
Definition listed (tr : list sweep.call) : list (Z * (error + ConnectionList)) :=
  omap (λ c, match c with sweep.CList page r => Some (page, r) | _ => None end) tr.

(** The IDs a sweep asked to delete, with what the deletion returned. *)
Definition deleted (tr : list sweep.call) : list (string * option error) :=
  omap (λ c, match c with sweep.CDelete id r => Some (id, r) | _ => None end) tr.

(** The IDs of the connections of a page whose name contains "Test". *)
Definition test_ids (connections : list Connection) : list string :=
  ID <$> filter (λ c, strings.Contains (Name c) "Test" = true) connections.

(** The connections a listing returned; none when it failed. *)
Definition page_connections (r : error + ConnectionList) : list Connection :=
  match r with
  | inl _ => []
  | inr connectionList => Connections connectionList
  end.

(** A listing succeeded and reported a next page. *)
Definition has_next_page (r : error + ConnectionList) : Prop :=
  ∃ connectionList, r = inr connectionList ∧ HasNext connectionList = true.

(** Where a thread stands with respect to the lock of its parent ID. *)
Inductive phase : Type := Before | Inside | After.

(** An effect that is no lock or unlock and, when it fetches or writes a
    parent object, fetches or writes [p]. *)
Definition call_on (p : string) (e : event) : Prop :=
  match e with
  | EvLock _ | EvUnlock _ => False
  | EvRead id | EvUpdate id _ => id = p
  | EvUniqueId => True
  end.

(** The history [h] is a beginning of [Lock p], calls on [p], [Unlock p]:
    the thread enters the section of [p] at most once, before all its
    calls, and leaves it after all of them. *)
Definition one_section (p : string) (h : list event) : Prop :=
  h = [] ∨ ∃ mid, Forall (call_on p) mid
                  ∧ (h = EvLock p :: mid ∨ h = EvLock p :: mid ++ [EvUnlock p]).

(** Jobs that mutate the members list of their parent. *)
Definition reconciles (j : concurrent.job) : bool :=
  match j with
  | concurrent.Observe _ => false
  | _ => true
  end.

(** The phase in which a program may call the API, and the phase in which
    it ends: inside the section when it is [guard]ed, before any section
    otherwise. *)
Definition call_phase (guard : bool) : phase := if guard then Inside else Before.
Definition end_phase (guard : bool) : phase := if guard then After else Before.

(** The lock discipline of a program for the key [key], by the phase it
    starts in (the index) and the phase [pend] it ends in: it locks [key],
    and only when [guard]ed, as its way from [Before] to [Inside], unlocks
    it as its way from [Inside] to [After], touches no other key and no
    other parent object, and calls the API in its call phase only. *)
Inductive disciplined {A : Type} (guard : bool) (key : string) (pend : phase)
  : phase → prog A → Prop :=
| disc_Ret a : disciplined guard key pend pend (Ret a)
| disc_Lock next :
    guard = true →
    disciplined guard key pend Inside next →
    disciplined guard key pend Before (Lock key next)
| disc_Unlock next :
    disciplined guard key pend After next →
    disciplined guard key pend Inside (Unlock key next)
| disc_Read next :
    (∀ r, disciplined guard key pend (call_phase guard) (next r)) →
    disciplined guard key pend (call_phase guard) (Read key next)
| disc_Update clients next :
    (∀ r, disciplined guard key pend (call_phase guard) (next r)) →
    disciplined guard key pend (call_phase guard) (Update key clients next)
| disc_UniqueId next :
    (∀ r, disciplined guard key pend (call_phase guard) (next r)) →
    disciplined guard key pend (call_phase guard) (UniqueId next).

(** The histories a thread can have in a phase. *)
Definition shape (guard : bool) (p : string) (ph : phase) (h : list event) : Prop :=
  match ph with
  | Before => if guard then h = [] else Forall (call_on p) h
  | Inside => guard = true ∧ ∃ mid, h = EvLock p :: mid ∧ Forall (call_on p) mid
  | After =>
      guard = true ∧ ∃ mid, h = EvLock p :: mid ++ [EvUnlock p] ∧ Forall (call_on p) mid
  end.

(** What holds of a thread that runs the handler of job [j]. *)
Definition thread_ok (j : concurrent.job) (t : concurrent.thread) : Prop :=
  ∃ ph,
    disciplined (reconciles j) (concurrent.parent j) (end_phase (reconciles j)) ph
      (concurrent.code t)
    ∧ shape (reconciles j) (concurrent.parent j) ph (concurrent.history t).

(** Thread [i] is in its critical section for [key]: it has locked [key]
    and not unlocked it since. *)
Definition in_section (ths : list concurrent.thread) (i : nat) (key : string) : Prop :=
  ∃ t, ths !! i = Some t ∧ concurrent.holds key (concurrent.history t) = true.

(** The lock table agrees with the threads: a key is held exactly when
    some thread is in its critical section, and no two threads are. *)
Definition locks_ok (ths : list concurrent.thread) (tbl : mutex.KeyValue) : Prop :=
  (∀ k, mutex.held tbl k = true ↔ ∃ i, in_section ths i k)
  ∧ (∀ i j k, in_section ths i k → in_section ths j k → i = j).

(** The invariant of the interleaved system running [jobs]. *)
Definition system_ok {W : Type} (jobs : list concurrent.job) (s : concurrent.system W)
  : Prop :=
  Forall2 thread_ok jobs (concurrent.threads s)
  ∧ locks_ok (concurrent.threads s) (concurrent.table s).

(** A program that performs no write of a parent object. *)
Inductive no_update {A : Type} : prog A → Prop :=
| nu_Ret a : no_update (Ret a)
| nu_Lock key next : no_update next → no_update (Lock key next)
| nu_Unlock key next : no_update next → no_update (Unlock key next)
| nu_Read id next : (∀ r, no_update (next r)) → no_update (Read id next)
| nu_UniqueId next : (∀ r, no_update (next r)) → no_update (UniqueId next).

(** The members list a job writes back once it has fetched [c]. *)
Definition write_of (j : concurrent.job) (c : Connection) : list string :=
  match j with
  | concurrent.Establish data => EnabledClients c ++ [Get data "client_id"]
  | concurrent.Remove data => drop_client (EnabledClients c) (Get data "client_id")
  | concurrent.Observe _ => EnabledClients c
  end.

(** A program that is about to fetch the parent of job [j]: after a failed
    fetch it writes nothing, after a fetch of [c] it writes [write_of j c]
    and nothing else. *)
Definition fetches (j : concurrent.job)
    (code : prog (Diagnostics * ResourceData)) : Prop :=
  ∃ k, code = Read (concurrent.parent j) k
       ∧ (∀ err, no_update (k (inl err)))
       ∧ (∀ c, ∃ k', k (inr c) = Update (concurrent.parent j) (write_of j c) k'
                     ∧ ∀ r, no_update (k' r)).

(** Job [j] establishes the membership of client [m] in parent [p]. *)
Definition targets (p m : string) (j : concurrent.job) : Prop :=
  ∃ data, j = concurrent.Establish data
          ∧ Get data "connection_id" = p ∧ Get data "client_id" = m.

(** Client [m] is among the members of parent [p] in the store. *)
Definition kept (p m : string) (σ : gmap string Connection) : Prop :=
  ∃ c, σ !! p = Some c ∧ m ∈ EnabledClients c.

(** Where the thread [t] of job [j] stands with respect to its write, in a
    store [σ]: not started, about to fetch, about to write what it
    computed from the connection the store still holds, or past its write
    (or without any), in which case a membership it had to establish is
    there. *)
Definition stage (p m : string) (σ : gmap string Connection)
    (j : concurrent.job) (t : concurrent.thread) : Prop :=
  (reconciles j = true ∧ concurrent.code t = concurrent.handler j)
  ∨ (reconciles j = true ∧ fetches j (concurrent.code t))
  ∨ (reconciles j = true
     ∧ ∃ c k, σ !! concurrent.parent j = Some c
              ∧ concurrent.code t = Update (concurrent.parent j) (write_of j c) k
              ∧ ∀ r, no_update (k r))
  ∨ (no_update (concurrent.code t) ∧ (targets p m j → kept p m σ)).

(** No job removes the membership of client [m] in parent [p]. *)
Definition unrivalled (p m : string) (jobs : list concurrent.job) : Prop :=
  ∀ i data, jobs !! i = Some (concurrent.Remove data) →
            Get data "connection_id" = p → Get data "client_id" ≠ m.

(** The invariant of the handlers interleaved on the reference remote,
    as far as the membership of [m] in [p] goes. *)
Definition keeping (p m : string) (jobs : list concurrent.job)
    (s : concurrent.system reference.Remote) : Prop :=
  system_ok jobs s
  ∧ reference.faults (concurrent.world s) = []
  ∧ is_Some (reference.store (concurrent.world s) !! p)
  ∧ Forall2 (stage p m (reference.store (concurrent.world s))) jobs (concurrent.threads s).

(** * Part II: the properties *)

(** ** The two range loops *)

Lemma scan_found_acc (clients : list string) (clientID : string) (b : bool) :
  fold_left (fun found c => if String.eqb c clientID then true else found) clients b
  = b || bool_decide (clientID ∈ clients).
Proof.
  revert b; induction clients as [|c cs IH]; intros b; cbn [fold_left].
  - rewrite bool_decide_eq_false_2; [by rewrite orb_false_r | by apply not_elem_of_nil].
  - rewrite IH. destruct (String.eqb_spec c clientID) as [->|Hne].
    + rewrite (bool_decide_eq_true_2 (clientID ∈ clientID :: cs))
        by apply list_elem_of_here.
      by rewrite !orb_true_r.
    + f_equal. apply bool_decide_ext. rewrite elem_of_cons. intuition congruence.
Qed.

Lemma scan_found_elem_of (clients : list string) (clientID : string) :
  scan_found clients clientID = bool_decide (clientID ∈ clients).
Proof. unfold scan_found. by rewrite scan_found_acc. Qed.

Lemma drop_client_acc (clients : list string) (clientID : string) (acc : list string) :
  fold_left (fun out c => if String.eqb c clientID then out else out ++ [c]) clients acc
  = acc ++ filter (λ c, c ≠ clientID) clients.
Proof.
  revert acc; induction clients as [|c cs IH]; intros acc; cbn [fold_left].
  - by rewrite app_nil_r.
  - rewrite IH. destruct (String.eqb_spec c clientID) as [->|Hne].
    + by rewrite filter_cons_False by (intros Hc; by apply Hc).
    + rewrite filter_cons_True by done. by rewrite <- app_assoc.
Qed.

Lemma drop_client_filter (clients : list string) (clientID : string) :
  drop_client clients clientID = filter (λ c, c ≠ clientID) clients.
Proof. unfold drop_client. by rewrite drop_client_acc. Qed.

(** ** Sequential runs of the handlers *)

Section Handlers.
Context {W : Type} `{ManagementAPI W}.

Lemma run_bind {A B : Type} (p : prog A) (k : A -> prog B) (w : W) :
  run (bind p k) w =
  let '(a, w1, t1) := run p w in
  let '(b, w2, t2) := run (k a) w1 in
  (b, w2, t1 ++ t2).
Proof.
  revert w; induction p as [a|key next IH|key next IH|id next IH|id cs next IH|next IH];
    intros w; cbn [bind run].
  - by destruct (run (k a) w) as [[b w2] t2].
  - rewrite IH. destruct (run next w) as [[a w1] t1].
    by destruct (run (k a) w1) as [[b w2] t2].
  - rewrite IH. destruct (run next w) as [[a w1] t1].
    by destruct (run (k a) w1) as [[b w2] t2].
  - destruct (api_read id w) as [r w0]. rewrite IH.
    destruct (run (next r) w0) as [[a w1] t1].
    by destruct (run (k a) w1) as [[b w2] t2].
  - destruct (api_update id cs w) as [r w0]. rewrite IH.
    destruct (run (next r) w0) as [[a w1] t1].
    by destruct (run (k a) w1) as [[b w2] t2].
  - destruct (api_unique_id w) as [r w0]. rewrite IH.
    destruct (run (next r) w0) as [[a w1] t1].
    by destruct (run (k a) w1) as [[b w2] t2].
Qed.

(** The outcome of [readConnectionClient], by the result of its fetch. *)
Lemma run_read (data : ResourceData) (w : W) :
  run (readConnectionClient data) w =
  let '(r, w1) := api_read (Get data "connection_id") w in
  (match r with
   | inl err => if is_not_found err then (None, SetId data "") else (Some err, data)
   | inr c =>
       if bool_decide (Get data "client_id" ∈ EnabledClients c)
       then (None, Set_ (Set_ data "name" (Name c)) "strategy" (Strategy c))
       else (None, SetId data "")
   end, w1, [EvRead (Get data "connection_id")]).
Proof.
  unfold readConnectionClient; cbn [run].
  destruct (api_read _ w) as [[err|c] w1].
  - by destruct (is_not_found err).
  - rewrite scan_found_elem_of. by destruct (bool_decide _).
Qed.

(*HANDLERS_END*)


Lemma occurrences_app (clientID : string) (l1 l2 : list string) :
  occurrences clientID (l1 ++ l2)
  = (occurrences clientID l1 + occurrences clientID l2)%nat.
Proof. unfold occurrences. by rewrite filter_app, length_app. Qed.

Lemma occurrences_pos (clientID : string) (clients : list string) :
  clientID ∈ clients → (1 ≤ occurrences clientID clients)%nat.
Proof.
  unfold occurrences. intros Hin.
  assert (Hf : clientID ∈ filter (λ c, c = clientID) clients)
    by (apply list_elem_of_filter; done).
  destruct (filter _ clients); [by apply elem_of_nil in Hf | simpl; lia].
Qed.

(** The outcome of [deleteConnectionClient], by the results of its calls. *)
Lemma run_delete (data : ResourceData) (w : W) :
  run (deleteConnectionClient data) w =
  let p := Get data "connection_id" in
  let '(r, w1) := api_read p w in
  match r with
  | inl err =>
      (if is_not_found err then (None, SetId data "") else (Some err, data),
       w1, [EvLock p; EvRead p; EvUnlock p])
  | inr c =>
      let written := filter (λ x, x ≠ Get data "client_id") (EnabledClients c) in
      let '(r2, w2) := api_update p written w1 in
      (match r2 with
       | Some err => if is_not_found err then (None, SetId data "") else (Some err, data)
       | None => (None, SetId data "")
       end, w2, [EvLock p; EvRead p; EvUpdate p written; EvUnlock p])
  end.
Proof.
  unfold deleteConnectionClient, defer_Unlock. cbn [run].
  rewrite run_bind. cbn [run]. cbv zeta.
  destruct (api_read _ w) as [[err|c] w1]; cbn [run].
  - by destruct (is_not_found err).
  - rewrite drop_client_filter.
    destruct (api_update _ _ w1) as [[err|] w2]; cbn [run]; [|done].
    by destruct (is_not_found err).
Qed.

(** The outcome of [createConnectionClient], by the results of its calls. *)
Lemma run_create (data : ResourceData) (w : W) :
  run (createConnectionClient data) w =
  let p := Get data "connection_id" in
  let '(r, w1) := api_read p w in
  match r with
  | inl err => ((Some err, data), w1, [EvLock p; EvRead p; EvUnlock p])
  | inr c =>
      let written := EnabledClients c ++ [Get data "client_id"] in
      let '(r2, w2) := api_update p written w1 in
      match r2 with
      | Some err =>
          ((Some err, data), w2, [EvLock p; EvRead p; EvUpdate p written; EvUnlock p])
      | None =>
          let '(uid, w3) := api_unique_id w2 in
          let '(out, w4, tr) := run (readConnectionClient (SetId data uid)) w3 in
          (out, w4,
           [EvLock p; EvRead p; EvUpdate p written; EvUniqueId] ++ tr ++ [EvUnlock p])
      end
  end.
Proof.
  unfold createConnectionClient, defer_Unlock. cbn [run].
  rewrite run_bind. cbn [run]. cbv zeta.
  destruct (api_read _ w) as [[err|c] w1]; cbn [run]; [done|].
  destruct (api_update _ _ w1) as [[err|] w2]; cbn [run]; [done|].
  destruct (api_unique_id w2) as [uid w3].
  by destruct (run (readConnectionClient (SetId data uid)) w3) as [[out w4] tr].
Qed.

(** C2. Whenever the fetch of the parent succeeds, [createConnectionClient]
    writes back the fetched members followed by the client ID, without
    looking for it in the list: the fetched entries are a prefix of what
    is written, the client ID occurs once more than before, hence at least
    twice when it was already a member. *)
Theorem create_appends_unconditionally (data : ResourceData) (w w1 : W)
    (c : Connection) :
  api_read (Get data "connection_id") w = (inr c, w1) →
  let p := Get data "connection_id" in
  let m := Get data "client_id" in
  ∃ written out w' rest,
    run (createConnectionClient data) w
      = (out, w', EvLock p :: EvRead p :: EvUpdate p written :: rest)
    ∧ written = EnabledClients c ++ [m]
    ∧ EnabledClients c `prefix_of` written
    ∧ occurrences m written = S (occurrences m (EnabledClients c))
    ∧ (m ∈ EnabledClients c → (2 ≤ occurrences m written)%nat).
Proof.
  intros Hread p m.
  exists (EnabledClients c ++ [m]).
  unfold createConnectionClient, defer_Unlock. cbn [run].
  rewrite run_bind. cbn [run]. rewrite Hread. fold p m. cbn [run].
  destruct (api_update p _ w1) as [r w3].
  destruct (run _ w3) as [[out' w4] tr'] eqn:Hk.
  exists out', w4, (tr' ++ [EvUnlock p]).
  assert (Hocc : occurrences m (EnabledClients c ++ [m])
                 = S (occurrences m (EnabledClients c))).
  { rewrite occurrences_app. unfold occurrences at 2.
    rewrite filter_cons_True by done. simpl. lia. }
  repeat split.
  - by eexists.
  - done.
  - intros Hin%occurrences_pos. lia.
Qed.

(** C3. Whenever the fetch of the parent succeeds, [deleteConnectionClient]
    writes back the fetched members without any occurrence of the client
    ID, the other entries all kept and in their order; from [a; m; b; m]
    it writes [a; b]. *)
Theorem delete_removes_every_occurrence (data : ResourceData) (w w1 : W)
    (c : Connection) :
  api_read (Get data "connection_id") w = (inr c, w1) →
  let p := Get data "connection_id" in
  let m := Get data "client_id" in
  ∃ written out w',
    run (deleteConnectionClient data) w
      = (out, w', [EvLock p; EvRead p; EvUpdate p written; EvUnlock p])
    ∧ written = filter (λ x, x ≠ m) (EnabledClients c)
    ∧ (m ∉ written)
    ∧ written `sublist_of` EnabledClients c
    ∧ (∀ x, x ≠ m → occurrences x written = occurrences x (EnabledClients c))
    ∧ (∀ a b, a ≠ m → b ≠ m → EnabledClients c = [a; m; b; m] → written = [a; b]).
Proof.
  intros Hread p m. rewrite run_delete. cbv zeta. rewrite Hread. fold p m.
  destruct (api_update p _ w1) as [r2 w2].
  eexists _, _, _. split; [reflexivity|]. split; [reflexivity|].
  split; [|split; [|split]].
  - intros Hin%list_elem_of_filter. by destruct Hin.
  - apply sublist_filter.
  - intros x Hx. unfold occurrences. rewrite list_filter_filter.
    apply (f_equal length), list_filter_iff. intros y. split; [tauto|].
    intros ->. done.
  - intros a b Ha Hb ->.
    rewrite filter_cons_True by done. rewrite filter_cons_False by (intros X; by apply X).
    rewrite filter_cons_True by done. by rewrite filter_cons_False by (intros X; by apply X).
Qed.

(** C4. [deleteConnectionClient] succeeds as a no-op, clearing the local
    record, when the fetch reports NotFound, and likewise when the
    write-back of the filtered list fails with NotFound; any other fetch
    or write error is returned to the caller, the record untouched. *)
Theorem delete_idempotent_on_missing_parent (data : ResourceData) (w : W) :
  let p := Get data "connection_id" in
  let written c := filter (λ x, x ≠ Get data "client_id") (EnabledClients c) in
  (∀ err w1, api_read p w = (inl err, w1) → is_not_found err = true →
     run (deleteConnectionClient data) w
       = ((None, SetId data ""), w1, [EvLock p; EvRead p; EvUnlock p]))
  ∧ (∀ c w1 err w2, api_read p w = (inr c, w1) →
       api_update p (written c) w1 = (Some err, w2) → is_not_found err = true →
       run (deleteConnectionClient data) w
         = ((None, SetId data ""), w2,
            [EvLock p; EvRead p; EvUpdate p (written c); EvUnlock p]))
  ∧ (∀ err w1, api_read p w = (inl err, w1) → is_not_found err = false →
       run (deleteConnectionClient data) w
         = ((Some err, data), w1, [EvLock p; EvRead p; EvUnlock p]))
  ∧ (∀ c w1 err w2, api_read p w = (inr c, w1) →
       api_update p (written c) w1 = (Some err, w2) → is_not_found err = false →
       run (deleteConnectionClient data) w
         = ((Some err, data), w2,
            [EvLock p; EvRead p; EvUpdate p (written c); EvUnlock p])).
Proof.
  intros p written. rewrite run_delete. cbv zeta. fold p.
  repeat split.
  - intros err w1 -> ->. done.
  - intros c w1 err w2 -> Hupd Hnf. unfold written in Hupd. rewrite Hupd, Hnf. done.
  - intros err w1 -> ->. done.
  - intros c w1 err w2 -> Hupd Hnf. unfold written in Hupd. rewrite Hupd, Hnf. done.
Qed.

(** C5. [createConnectionClient] returns the error of a failed fetch to the
    caller, whatever it is, and performs no write; a NotFound that makes
    the create fail is mapped to a non-error outcome by
    [readConnectionClient] and [deleteConnectionClient]. *)
Theorem create_fails_when_fetch_fails (data : ResourceData) (w w1 : W) (err : error) :
  api_read (Get data "connection_id") w = (inl err, w1) →
  let p := Get data "connection_id" in
  run (createConnectionClient data) w
    = ((Some err, data), w1, [EvLock p; EvRead p; EvUnlock p])
  ∧ (is_not_found err = true →
       (run (readConnectionClient data) w).1.1 = (None, SetId data "")
       ∧ (run (deleteConnectionClient data) w).1.1 = (None, SetId data "")).
Proof.
  intros Hread p. rewrite run_create, run_read, run_delete. cbv zeta.
  rewrite Hread. split; [done|]. by intros ->.
Qed.

(** C6. [readConnectionClient] reports the membership absent, clearing the
    local record and returning no error, when the fetch reports NotFound
    and when the client ID is not among the fetched members; when it is
    among them the record keeps its ID and receives the name and the
    strategy of the parent; any other fetch error is returned. *)
Theorem read_reports_membership (data : ResourceData) (w : W) :
  let p := Get data "connection_id" in
  let m := Get data "client_id" in
  (∀ err w1, api_read p w = (inl err, w1) → is_not_found err = true →
     run (readConnectionClient data) w = ((None, SetId data ""), w1, [EvRead p]))
  ∧ (∀ c w1, api_read p w = (inr c, w1) → m ∉ EnabledClients c →
       run (readConnectionClient data) w = ((None, SetId data ""), w1, [EvRead p]))
  ∧ (∀ c w1, api_read p w = (inr c, w1) → m ∈ EnabledClients c →
       ∃ data', run (readConnectionClient data) w = ((None, data'), w1, [EvRead p])
         ∧ Id data' = Id data
         ∧ Get data' "name" = Name c
         ∧ Get data' "strategy" = Strategy c
         ∧ Get data' "connection_id" = p
         ∧ Get data' "client_id" = m)
  ∧ (∀ err w1, api_read p w = (inl err, w1) → is_not_found err = false →
       run (readConnectionClient data) w = ((Some err, data), w1, [EvRead p])).
Proof.
  intros p m. rewrite run_read. fold p m. repeat split.
  - by intros err w1 -> ->.
  - intros c w1 -> Hnin. by rewrite bool_decide_eq_false_2.
  - intros c w1 -> Hin. rewrite bool_decide_eq_true_2 by done.
    eexists. split; [reflexivity|]. unfold Get, Set_; cbn [Id attrs].
    repeat split.
    + rewrite lookup_insert_ne by done. by rewrite lookup_insert_eq.
    + by rewrite lookup_insert_eq.
    + by rewrite !lookup_insert_ne by done.
    + by rewrite !lookup_insert_ne by done.
  - by intros err w1 -> ->.
Qed.

(** C8, as the code has it. The unlock of [createConnectionClient] is
    deferred to its return: the trace of every run starts with the lock
    of the parent ID and ends with its unlock, no remote call of the run
    happens outside the lock, and on the path where fetch and write
    succeed the confirmation read is the last call before the unlock. *)
Theorem create_confirms_inside_lock (data : ResourceData) (w : W) :
  let p := Get data "connection_id" in
  let tr := (run (createConnectionClient data) w).2 in
  (∃ mid, tr = EvLock p :: mid ++ [EvUnlock p])
  ∧ outside_lock p false tr = []
  ∧ (∀ c w1 w2, api_read p w = (inr c, w1) →
       api_update p (EnabledClients c ++ [Get data "client_id"]) w1 = (None, w2) →
       tr = [EvLock p; EvRead p;
             EvUpdate p (EnabledClients c ++ [Get data "client_id"]);
             EvUniqueId; EvRead p; EvUnlock p]).
Proof.
  intros p tr. subst tr. rewrite run_create. cbv zeta. fold p.
  destruct (api_read p w) as [[err|c] w1] eqn:Hread.
  - cbn. rewrite String.eqb_refl. split; [by exists [EvRead p]|].
    split; [done|]. intros; congruence.
  - destruct (api_update p _ w1) as [[err|] w2] eqn:Hupd.
    + cbn. rewrite String.eqb_refl. split; [by eexists [_; _]|].
      split; [done|]. intros c' w1' w2' [= <- <-] Hupd'. congruence.
    + destruct (api_unique_id w2) as [uid w3]. rewrite run_read.
      change (Get (SetId data uid) "connection_id") with p.
      destruct (api_read p w3) as [r w4]. cbn. rewrite String.eqb_refl.
      split; [by eexists [_; _; _; _]|]. split; [done|].
      by intros c' w1' w2' [= <- <-] _.
Qed.

End Handlers.

(** ** The handlers on the reference remote *)

Section OnReference.
Import reference.

(** C2 on a parent that already has cli_B among its members. *)
Lemma create_appends_unconditionally_witness :
  api_read (Get sample.data "connection_id") (sample.remote ["cli_A"; "cli_B"] [])
    = (inr (sample.conn ["cli_A"; "cli_B"]), sample.remote ["cli_A"; "cli_B"] [])
  ∧ ∃ out w' rest,
      run (createConnectionClient sample.data) (sample.remote ["cli_A"; "cli_B"] [])
        = (out, w', EvLock "con_1" :: EvRead "con_1"
                    :: EvUpdate "con_1" ["cli_A"; "cli_B"; "cli_B"] :: rest).
Proof.
  assert (Hread : api_read (Get sample.data "connection_id")
                    (sample.remote ["cli_A"; "cli_B"] [])
                  = (inr (sample.conn ["cli_A"; "cli_B"]),
                     sample.remote ["cli_A"; "cli_B"] [])) by reflexivity.
  split; [exact Hread|].
  destruct (create_appends_unconditionally _ _ _ _ Hread)
    as (written & out & w' & rest & Hrun & -> & _).
  by exists out, w', rest.
Defined.

(** C3 on a parent whose members list has cli_B twice. *)
Lemma delete_removes_every_occurrence_witness :
  api_read (Get sample.data "connection_id")
      (sample.remote ["cli_A"; "cli_B"; "cli_C"; "cli_B"] [])
    = (inr (sample.conn ["cli_A"; "cli_B"; "cli_C"; "cli_B"]),
       sample.remote ["cli_A"; "cli_B"; "cli_C"; "cli_B"] [])
  ∧ ∃ out w',
      run (deleteConnectionClient sample.data)
          (sample.remote ["cli_A"; "cli_B"; "cli_C"; "cli_B"] [])
        = (out, w', [EvLock "con_1"; EvRead "con_1";
                     EvUpdate "con_1" ["cli_A"; "cli_C"]; EvUnlock "con_1"]).
Proof.
  assert (Hread : api_read (Get sample.data "connection_id")
                    (sample.remote ["cli_A"; "cli_B"; "cli_C"; "cli_B"] [])
                  = (inr (sample.conn ["cli_A"; "cli_B"; "cli_C"; "cli_B"]),
                     sample.remote ["cli_A"; "cli_B"; "cli_C"; "cli_B"] []))
    by reflexivity.
  split; [exact Hread|].
  destruct (delete_removes_every_occurrence _ _ _ _ Hread)
    as (written & out & w' & Hrun & _ & _ & _ & _ & Hex).
  exists out, w'. rewrite Hrun.
  by rewrite (Hex "cli_A" "cli_C") by done.
Defined.

(** C4 on a missing parent, on a write refused with NotFound, and on a
    fetch and a write refused with another error. *)
Lemma delete_idempotent_on_missing_parent_witness :
  (run (deleteConnectionClient sample.data) sample.empty_remote).1.1
    = (None, SetId sample.data "")
  ∧ (run (deleteConnectionClient sample.data)
         (sample.remote ["cli_B"] [None; Some NotFound])).1.1
    = (None, SetId sample.data "")
  ∧ (run (deleteConnectionClient sample.data)
         (sample.remote ["cli_B"] [Some sample.Forbidden])).1.1
    = (Some sample.Forbidden, sample.data)
  ∧ (run (deleteConnectionClient sample.data)
         (sample.remote ["cli_B"] [None; Some sample.Forbidden])).1.1
    = (Some sample.Forbidden, sample.data).
Proof.
  split; [|split; [|split]].
  - destruct (delete_idempotent_on_missing_parent sample.data sample.empty_remote)
      as (Hfetch & _).
    by rewrite (Hfetch NotFound sample.empty_remote) by reflexivity.
  - destruct (delete_idempotent_on_missing_parent sample.data
                (sample.remote ["cli_B"] [None; Some NotFound]))
      as (_ & Hwrite & _).
    by rewrite (Hwrite (sample.conn ["cli_B"])
                  (sample.remote ["cli_B"] [Some NotFound])
                  NotFound (sample.remote ["cli_B"] [])) by reflexivity.
  - destruct (delete_idempotent_on_missing_parent sample.data
                (sample.remote ["cli_B"] [Some sample.Forbidden]))
      as (_ & _ & Hfetch & _).
    by rewrite (Hfetch sample.Forbidden (sample.remote ["cli_B"] [])) by reflexivity.
  - destruct (delete_idempotent_on_missing_parent sample.data
                (sample.remote ["cli_B"] [None; Some sample.Forbidden]))
      as (_ & _ & _ & Hwrite).
    by rewrite (Hwrite (sample.conn ["cli_B"])
                  (sample.remote ["cli_B"] [Some sample.Forbidden])
                  sample.Forbidden (sample.remote ["cli_B"] [])) by reflexivity.
Defined.

(** C5 on a remote without the parent. *)
Lemma create_fails_when_fetch_fails_witness :
  api_read (Get sample.data "connection_id") sample.empty_remote
    = (inl NotFound, sample.empty_remote)
  ∧ run (createConnectionClient sample.data) sample.empty_remote
    = ((Some NotFound, sample.data), sample.empty_remote,
       [EvLock "con_1"; EvRead "con_1"; EvUnlock "con_1"])
  ∧ (run (readConnectionClient sample.data) sample.empty_remote).1.1
    = (None, SetId sample.data "")
  ∧ (run (deleteConnectionClient sample.data) sample.empty_remote).1.1
    = (None, SetId sample.data "").
Proof.
  assert (Hread : api_read (Get sample.data "connection_id") sample.empty_remote
                  = (inl NotFound, sample.empty_remote)) by reflexivity.
  split; [exact Hread|].
  destruct (create_fails_when_fetch_fails _ _ _ _ Hread) as (Hcreate & Hothers).
  split; [exact Hcreate|]. by apply Hothers.
Defined.

(** C6 on a missing parent, on a parent without and with the member, and
    on a fetch refused with another error. *)
Lemma read_reports_membership_witness :
  (run (readConnectionClient sample.data) sample.empty_remote).1.1
    = (None, SetId sample.data "")
  ∧ (run (readConnectionClient sample.data) (sample.remote ["cli_A"] [])).1.1
    = (None, SetId sample.data "")
  ∧ (∃ data', (run (readConnectionClient sample.data)
                   (sample.remote ["cli_A"; "cli_B"] [])).1.1 = (None, data')
       ∧ Get data' "name" = "corp-directory" ∧ Get data' "strategy" = "auth0")
  ∧ (run (readConnectionClient sample.data)
         (sample.remote ["cli_B"] [Some sample.Forbidden])).1.1
    = (Some sample.Forbidden, sample.data).
Proof.
  split; [|split; [|split]].
  - destruct (read_reports_membership sample.data sample.empty_remote) as (Hgone & _).
    by rewrite (Hgone NotFound sample.empty_remote) by reflexivity.
  - destruct (read_reports_membership sample.data (sample.remote ["cli_A"] []))
      as (_ & Habsent & _).
    rewrite (Habsent (sample.conn ["cli_A"]) (sample.remote ["cli_A"] []));
      [done | reflexivity | ].
    cbn. rewrite elem_of_cons, elem_of_nil. by intros [?|[]].
  - destruct (read_reports_membership sample.data (sample.remote ["cli_A"; "cli_B"] []))
      as (_ & _ & Hpresent & _).
    destruct (Hpresent (sample.conn ["cli_A"; "cli_B"])
                (sample.remote ["cli_A"; "cli_B"] []))
      as (data' & Hrun & _ & Hname & Hstrategy & _);
      [reflexivity | cbn; rewrite !elem_of_cons; by auto | ].
    exists data'. by rewrite Hrun.
  - destruct (read_reports_membership sample.data
                (sample.remote ["cli_B"] [Some sample.Forbidden]))
      as (_ & _ & _ & Hfail).
    by rewrite (Hfail sample.Forbidden (sample.remote ["cli_B"] [])) by reflexivity.
Defined.

(** C8, as stated, fails: on a remote where fetch and write succeed, the
    trace of [createConnectionClient] has its only unlock after the
    confirmation read. *)
Lemma create_releases_before_confirmation_counterexample :
  (run (createConnectionClient sample.data) (sample.remote ["cli_A"] [])).2
    = [EvLock "con_1"; EvRead "con_1"; EvUpdate "con_1" ["cli_A"; "cli_B"];
       EvUniqueId; EvRead "con_1"; EvUnlock "con_1"]
  ∧ ¬ released_before_read "con_1"
        (run (createConnectionClient sample.data) (sample.remote ["cli_A"] [])).2.
Proof.
  assert (Htr : (run (createConnectionClient sample.data)
                     (sample.remote ["cli_A"] [])).2
                = [EvLock "con_1"; EvRead "con_1"; EvUpdate "con_1" ["cli_A"; "cli_B"];
                   EvUniqueId; EvRead "con_1"; EvUnlock "con_1"]) by reflexivity.
  split; [exact Htr|]. rewrite Htr. intros (t1 & t2 & Heq & Hin).
  do 5 (destruct t1 as [|e t1]; [discriminate Heq|];
        injection Heq as _ Heq; clear e).
  destruct t1 as [|e t1].
  - injection Heq as <-. by apply elem_of_nil in Hin.
  - injection Heq as _ Heq. by destruct t1.
Qed.

(** C8 on a remote where fetch and write succeed. *)
Lemma create_confirms_inside_lock_witness :
  api_read (Get sample.data "connection_id") (sample.remote ["cli_A"] [])
    = (inr (sample.conn ["cli_A"]), sample.remote ["cli_A"] [])
  ∧ (run (createConnectionClient sample.data) (sample.remote ["cli_A"] [])).2
    = [EvLock "con_1"; EvRead "con_1"; EvUpdate "con_1" ["cli_A"; "cli_B"];
       EvUniqueId; EvRead "con_1"; EvUnlock "con_1"].
Proof.
  split; [reflexivity|].
  destruct (create_confirms_inside_lock sample.data (sample.remote ["cli_A"] []))
    as (_ & _ & Hok).
  by rewrite (Hok (sample.conn ["cli_A"]) (sample.remote ["cli_A"] [])
                (mkRemote {[ "con_1" := sample.conn ["cli_A"; "cli_B"] ]} [] 0))
    by reflexivity.
Defined.

Lemma next_fault_store (r r1 : Remote) (f : option error) :
  next_fault r = (f, r1) → store r1 = store r ∧ issued r1 = issued r.
Proof. unfold next_fault. destruct (faults r); by intros [= <- <-]. Qed.

Lemma remote_read_store (id : string) (r r1 : Remote) (x : error + Connection) :
  remote_read id r = (x, r1) → store r1 = store r.
Proof.
  unfold remote_read. destruct (next_fault r) as [f r0] eqn:Hf.
  apply next_fault_store in Hf as [Hs _].
  destruct f; [by intros [= <- <-]|].
  destruct (store r0 !! id); by intros [= <- <-].
Qed.

Lemma remote_update_written (id : string) (clients : list string) (r r1 : Remote) :
  remote_update id clients r = (None, r1) →
  ∃ c, store r1 !! id = Some c ∧ EnabledClients c = clients.
Proof.
  unfold remote_update. destruct (next_fault r) as [f r0].
  destruct f; [by intros [= <-]|].
  destruct (store r0 !! id) as [c|]; [|by intros [= <-]].
  intros [= <-]. eexists. cbn. by rewrite lookup_insert_eq.
Qed.

Lemma remote_read_unfaulted (id : string) (r : Remote) (c : Connection) :
  (next_fault r).1 = None → store r !! id = Some c →
  ∃ r1, remote_read id r = (inr c, r1).
Proof.
  unfold remote_read. destruct (next_fault r) as [f r0] eqn:Hf.
  intros Hnone Hc. cbn in Hnone. subst f.
  apply next_fault_store in Hf as [Hs _].
  rewrite Hs, Hc. by eexists.
Qed.

(** C7. On a remote that nobody else mutates: when
    [createConnectionClient] returns without error, a
    [readConnectionClient] of the same record that follows at once, its
    fetch being answered, finds the client ID among the members of the
    parent; it returns no error, does not clear the ID of the record and
    stores the name and the strategy of the parent in it. *)
Theorem establish_then_observe_present (data data' : ResourceData)
    (r r' : Remote) (tr : list event) :
  run (createConnectionClient data) r = ((None, data'), r', tr) →
  (next_fault r').1 = None →
  ∃ c r'',
    store r' !! Get data "connection_id" = Some c
    ∧ Get data "client_id" ∈ EnabledClients c
    ∧ run (readConnectionClient data') r'
      = ((None, Set_ (Set_ data' "name" (Name c)) "strategy" (Strategy c)),
         r'', [EvRead (Get data "connection_id")]).
Proof.
  rewrite run_create. cbv zeta. set (p := Get data "connection_id").
  set (m := Get data "client_id").
  destruct (api_read p r) as [[err|c] r1] eqn:Hread; [by intros [= ]|].
  destruct (api_update p _ r1) as [[err|] r2] eqn:Hupd; [by intros [= ]|].
  destruct (api_unique_id r2) as [uid r3] eqn:Huid.
  apply remote_update_written in Hupd as (c2 & Hc2 & Hcl).
  assert (Hs3 : store r3 = store r2) by (by injection Huid as <- <-).
  rewrite run_read. change (Get (SetId data uid) "connection_id") with p.
  change (Get (SetId data uid) "client_id") with m.
  destruct (api_read p r3) as [x r4] eqn:Hconfirm.
  apply remote_read_store in Hconfirm as Hs4.
  assert (Hstored : store r4 !! p = Some c2) by (by rewrite Hs4, Hs3).
  assert (Hin : m ∈ EnabledClients c2).
  { rewrite Hcl. apply elem_of_app. right. apply list_elem_of_here. }
  intros Hrun Hnext.
  assert (Hkeys : Get data' "connection_id" = p ∧ Get data' "client_id" = m ∧ r4 = r').
  { destruct x as [err|c4].
    - destruct (is_not_found err); [|discriminate Hrun].
      by injection Hrun as <- <- <-.
    - destruct (bool_decide _); injection Hrun as <- <- <-; [|done].
      unfold Get, Set_; cbn. by rewrite !lookup_insert_ne by done. }
  destruct Hkeys as (Hp & Hm & ->).
  destruct (remote_read_unfaulted p r' c2 Hnext Hstored) as [r'' Hobs].
  exists c2, r''. split; [done|]. split; [done|].
  rewrite run_read, Hp, Hm.
  change (api_read p r') with (remote_read p r'). rewrite Hobs.
  by rewrite bool_decide_eq_true_2.
Qed.

(** C7 on a remote that holds the parent and schedules no fault. *)
Lemma establish_then_observe_present_witness :
  run (createConnectionClient sample.data) (sample.remote ["cli_A"] [])
    = ((None, Set_ (Set_ (SetId sample.data "terraform-0") "name" "corp-directory")
                "strategy" "auth0"),
       mkRemote {[ "con_1" := sample.conn ["cli_A"; "cli_B"] ]} [] 1,
       [EvLock "con_1"; EvRead "con_1"; EvUpdate "con_1" ["cli_A"; "cli_B"];
        EvUniqueId; EvRead "con_1"; EvUnlock "con_1"])
  ∧ ∃ c r'',
      "cli_B" ∈ EnabledClients c
      ∧ (run (readConnectionClient
                (Set_ (Set_ (SetId sample.data "terraform-0") "name" "corp-directory")
                   "strategy" "auth0"))
             (mkRemote {[ "con_1" := sample.conn ["cli_A"; "cli_B"] ]} [] 1)).1
        = ((None, Set_ (Set_ (Set_ (Set_ (SetId sample.data "terraform-0")
                                      "name" "corp-directory") "strategy" "auth0")
                          "name" (Name c)) "strategy" (Strategy c)), r'').
Proof.
  assert (Hrun : run (createConnectionClient sample.data) (sample.remote ["cli_A"] [])
    = ((None, Set_ (Set_ (SetId sample.data "terraform-0") "name" "corp-directory")
                "strategy" "auth0"),
       mkRemote {[ "con_1" := sample.conn ["cli_A"; "cli_B"] ]} [] 1,
       [EvLock "con_1"; EvRead "con_1"; EvUpdate "con_1" ["cli_A"; "cli_B"];
        EvUniqueId; EvRead "con_1"; EvUnlock "con_1"])) by reflexivity.
  split; [exact Hrun|].
  destruct (establish_then_observe_present _ _ _ _ _ Hrun eq_refl)
    as (c & r'' & _ & Hin & Hobs).
  exists c, r''. split; [exact Hin|]. by rewrite Hobs.
Defined.

End OnReference.

(** ** The schema upgrade *)

Section SchemaUpgradeV0.
Variable Atoi : string → Z * option error.

Lemma upgrade_v0_never_errors (state state' : gmap string value) (err : option error) :
  connectionSchemaUpgradeV0 Atoi state = Returned (state', err) → err = None.
Proof.
  unfold connectionSchemaUpgradeV0.
  destruct (state !! "options") as [[| | | |[|[| | | | |m] rest]|]|];
    try (by intros [= _ <-]); try done.
  destruct (m !! "strategy_version") as [[| | |s| |]|]; try (by intros [= _ <-]).
  destruct (Atoi s) as [n e]. by intros [= _ <-].
Qed.

Lemma upgrade_v0_migrates (state m : gmap string value) (s : string) :
  string_strategy_version state = Some (m, s) →
  connectionSchemaUpgradeV0 Atoi state
  = Returned (<["options" :=
                 VList [VMap (<["strategy_version" := VInt (migrated_version Atoi s)]> m)]]>
                state, None).
Proof.
  unfold string_strategy_version, connectionSchemaUpgradeV0, migrated_version.
  destruct (state !! "options") as [[| | | |[|[| | | | |m'] rest]|]|]; try done.
  destruct (m' !! "strategy_version") as [[| | |s'| |]|]; try done.
  intros [= -> ->]. by destruct (Atoi s) as [n [e|]].
Qed.

Lemma upgrade_v0_unchanged (state : gmap string value) :
  options_well_shaped state = true →
  string_strategy_version state = None →
  connectionSchemaUpgradeV0 Atoi state = Returned (state, None).
Proof.
  unfold options_well_shaped, string_strategy_version, connectionSchemaUpgradeV0.
  destruct (state !! "options") as [[| | | |[|[| | | | |m'] rest]|]|]; try done.
  by destruct (m' !! "strategy_version") as [[| | |s'| |]|].
Qed.

Lemma upgrade_v0_panics (state : gmap string value) :
  options_well_shaped state = false ↔ connectionSchemaUpgradeV0 Atoi state = Panicked.
Proof.
  unfold options_well_shaped, connectionSchemaUpgradeV0.
  destruct (state !! "options") as [[| | | |[|[| | | | |m'] rest]|]|]; try done.
  destruct (m' !! "strategy_version") as [[| | |s'| |]|]; try done.
  by destruct (Atoi s') as [n [e|]].
Qed.

(** C9, as the code has it. On a state whose options, when they are a
    non-empty list, start with a map: a string-valued strategy_version of
    that map is replaced by the integer [Atoi] parsed, or by 0 when [Atoi]
    failed, the options becoming the list of that one map; in every other
    case (no options key, options that are no list or an empty list,
    strategy_version missing or no string) the state is returned as it
    is.  The error returned is always nil. *)
Theorem connectionSchemaUpgradeV0_migrates_or_keeps (state : gmap string value) :
  options_well_shaped state = true →
  (∀ m s, string_strategy_version state = Some (m, s) →
     connectionSchemaUpgradeV0 Atoi state
     = Returned (<["options" :=
                    VList [VMap (<["strategy_version" := VInt (migrated_version Atoi s)]> m)]]>
                   state, None)
     ∧ (∀ n, Atoi s = (n, None) → migrated_version Atoi s = n)
     ∧ (∀ n e, Atoi s = (n, Some e) → migrated_version Atoi s = 0%Z))
  ∧ (string_strategy_version state = None →
       connectionSchemaUpgradeV0 Atoi state = Returned (state, None))
  ∧ (∀ state' err,
       connectionSchemaUpgradeV0 Atoi state = Returned (state', err) → err = None).
Proof.
  intros Hshape. split; [|split].
  - intros m s Hs. split; [by apply upgrade_v0_migrates|].
    unfold migrated_version. split; [by intros n ->|by intros n e ->].
  - by apply upgrade_v0_unchanged.
  - apply upgrade_v0_never_errors.
Qed.

End SchemaUpgradeV0.

(** C9, as stated, fails: a state whose options list starts with something
    else than a map is none of the cases with a string-valued
    strategy_version, and it is not returned unchanged; the call panics. *)
Lemma connectionSchemaUpgradeV0_unchanged_counterexample :
  string_strategy_version sample.misshaped_state = None
  ∧ connectionSchemaUpgradeV0 strconv.Atoi sample.misshaped_state = Panicked
  ∧ connectionSchemaUpgradeV0 strconv.Atoi sample.misshaped_state
    ≠ Returned (sample.misshaped_state, None).
Proof.
  assert (Hp : connectionSchemaUpgradeV0 strconv.Atoi sample.misshaped_state = Panicked)
    by reflexivity.
  split; [reflexivity|]. split; [exact Hp|]. by rewrite Hp.
Qed.

(** C9 on a state whose strategy_version is the string 3, with the
    [strconv.Atoi] above. *)
Lemma connectionSchemaUpgradeV0_migrates_or_keeps_witness :
  options_well_shaped (sample.state_v0 (VString "3")) = true
  ∧ connectionSchemaUpgradeV0 strconv.Atoi (sample.state_v0 (VString "3"))
    = Returned (sample.state_v0 (VInt 3), None).
Proof.
  split; [reflexivity|].
  destruct (connectionSchemaUpgradeV0_migrates_or_keeps strconv.Atoi
              (sample.state_v0 (VString "3")) eq_refl) as (Hmig & _).
  destruct (Hmig (sample.options_v0 (VString "3")) "3" eq_refl) as (Hrun & _).
  rewrite Hrun. reflexivity.
Defined.

Example upgrade_v0_unparsable :
  connectionSchemaUpgradeV0 strconv.Atoi (sample.state_v0 (VString "v3"))
  = Returned (sample.state_v0 (VInt 0), None).
Proof. reflexivity. Qed.

Example upgrade_v0_not_a_string :
  connectionSchemaUpgradeV0 strconv.Atoi (sample.state_v0 (VBool true))
  = Returned (sample.state_v0 (VBool true), None).
Proof. reflexivity. Qed.

Example upgrade_v0_keeps_first_option_only :
  connectionSchemaUpgradeV0 strconv.Atoi
    {[ "options" := VList [VMap {[ "strategy_version" := VString "-12" ]}; VNil] ]}
  = Returned ({[ "options" := VList [VMap {[ "strategy_version" := VInt (-12) ]}] ]},
              None).
Proof. reflexivity. Qed.

(** ** The sweeper *)

Lemma prefix_app_iff (sub s : string) :
  String.prefix sub s = true ↔ ∃ post, s = sub +:+ post.
Proof.
  revert s; induction sub as [|a sub IH]; intros s.
  - split; [by exists s|by destruct s].
  - destruct s as [|b s]; cbn; [split; [done|by intros [? ?]]|].
    destruct (Ascii.ascii_dec a b) as [->|Hne].
    + rewrite IH. split; intros [post Hpost]; exists post.
      * change (String b s = String b (sub +:+ post)). by f_equal.
      * change (String b s = String b (sub +:+ post)) in Hpost. congruence.
    + split; [done|]. intros [post [= ]]. congruence.
Qed.

(** [strings.Contains] holds exactly when the substring occurs. *)
Lemma Contains_iff (s sub : string) :
  strings.Contains s sub = true ↔ ∃ pre post, s = pre +:+ sub +:+ post.
Proof.
  induction s as [|a s IH]; cbn [strings.Contains].
  - destruct (String.prefix sub "") eqn:Hp.
    + split; [intros _|done]. apply prefix_app_iff in Hp as [post Hpost].
      by exists "", post.
    + split; [done|]. intros (pre & post & Heq).
      destruct pre; [|discriminate Heq]. cbn in Heq.
      assert (String.prefix sub "" = true) by (apply prefix_app_iff; eauto).
      congruence.
  - destruct (String.prefix sub (String a s)) eqn:Hp.
    + split; [intros _|done]. apply prefix_app_iff in Hp as [post Hpost].
      by exists "", post.
    + rewrite IH. split.
      * intros (pre & post & ->). by exists (String a pre), post.
      * intros (pre & post & Heq). destruct pre as [|b pre].
        -- cbn in Heq.
           assert (String.prefix sub (String a s) = true)
             by (apply prefix_app_iff; eauto).
           congruence.
        -- injection Heq as _ ->. by exists pre, post.
Qed.

Lemma wrap_int_add (a b : Z) :
  sweep.wrap_int (sweep.wrap_int a + b) = sweep.wrap_int (a + b).
Proof.
  unfold sweep.wrap_int, goint.wrap. f_equal.
  replace ((a + 2 ^ 63) `mod` 2 ^ 64 - 2 ^ 63 + b + 2 ^ 63)%Z
    with ((a + 2 ^ 63) `mod` 2 ^ 64 + b)%Z by lia.
  rewrite Z.add_mod_idemp_l by lia. f_equal. lia.
Qed.

Lemma wrap_int_idemp (a : Z) : sweep.wrap_int (sweep.wrap_int a) = sweep.wrap_int a.
Proof. pose proof (wrap_int_add a 0) as Hadd. by rewrite !Z.add_0_r in Hadd. Qed.

(** Below 2^63 pages the page numbers are the plain 0, 1, 2, ... *)
Lemma wrap_int_small (i : nat) :
  (Z.of_nat i < 2 ^ 63)%Z → sweep.wrap_int (Z.of_nat i) = Z.of_nat i.
Proof.
  intros Hi. unfold sweep.wrap_int, goint.wrap. rewrite Z.mod_small by lia. lia.
Qed.

(** While the sum of [Start] and [Limit] fits a Go [int], [HasNext] is the
    plain comparison; past that the sum wraps around and a page deep in
    the listing reports a next page again. *)
Lemma HasNext_in_range (l : ConnectionList) :
  (- 2 ^ 63 ≤ Start l + Limit l < 2 ^ 63)%Z →
  HasNext l = bool_decide (Start l + Limit l < Total l)%Z.
Proof.
  intros Hrange. unfold HasNext, goint.wrap.
  rewrite Z.mod_small by lia.
  replace (Start l + Limit l + 2 ^ 63 - 2 ^ 63)%Z with (Start l + Limit l)%Z by lia.
  case_bool_decide; lia.
Qed.

Example HasNext_sum_wraps :
  HasNext (mkConnectionList (2 ^ 62) (2 ^ 62) 1 []) = true.
Proof. by vm_compute. Qed.

Lemma ErrorOrNil_default (result : sweep.multierror) :
  sweep.ErrorOrNil result = sweep.ErrorOrNil (Some (default [] result)).
Proof. by destruct result. Qed.

Section SweeperProperties.
Context {W : Type} `{sweep.SweepAPI W}.

Lemma sweep_page_spec (connections : list Connection) (result result' : sweep.multierror)
    (w w' : W) (tr : list sweep.call) :
  sweep.sweep_page connections result w = (result', w', tr) →
  listed tr = []
  ∧ (deleted tr).*1 = test_ids connections
  ∧ default [] result' = default [] result ++ omap snd (deleted tr).
Proof.
  revert result w tr; induction connections as [|c cs IH]; intros result w tr;
    cbn [sweep.sweep_page].
  - intros [= <- <- <-]. by rewrite app_nil_r.
  - unfold test_ids. destruct (strings.Contains (Name c) "Test") eqn:Hc.
    + destruct (sweep.api_delete (ID c) w) as [r w1].
      destruct (sweep.sweep_page cs _ w1) as [[result1 w2] tr1] eqn:Hrest.
      intros [= <- <- <-]. apply IH in Hrest as (Hl & Hd & Hr).
      rewrite filter_cons_True by done.
      change (listed (sweep.CDelete (ID c) r :: tr1)) with (listed tr1).
      change (deleted (sweep.CDelete (ID c) r :: tr1)) with ((ID c, r) :: deleted tr1).
      split; [done|]. split; [rewrite !fmap_cons; by f_equal|].
      rewrite Hr. destruct r as [e|]; cbn.
      * by rewrite <- app_assoc.
      * done.
    + rewrite filter_cons_False by (by rewrite Hc). apply IH.
Qed.

Lemma sweep_loop_spec (fuel : nat) (page : Z) (result : sweep.multierror)
    (w w' : W) (out : option (option sweep.sweep_error)) (tr : list sweep.call) :
  sweep.wrap_int page = page →
  sweep.sweep_loop fuel page result w = (out, w', tr) →
  (∀ i pr, listed tr !! i = Some pr → pr.1 = sweep.wrap_int (page + Z.of_nat i))
  ∧ (deleted tr).*1 = listed tr ≫= (λ pr, test_ids (page_connections pr.2))
  ∧ (∀ i pr, listed tr !! i = Some pr → S i < length (listed tr) → has_next_page pr.2)
  ∧ match out with
    | None => length (listed tr) = fuel ∧ Forall (λ pr, has_next_page pr.2) (listed tr)
    | Some res =>
        ∃ pr, last (listed tr) = Some pr
          ∧ match pr.2 with
            | inl err =>
                res = Some (sweep.ListError err) ∧ last tr = Some (sweep.CList pr.1 (inl err))
            | inr connectionList =>
                HasNext connectionList = false
                ∧ res = sweep.ErrorOrNil
                          (Some (default [] result ++ omap snd (deleted tr)))
            end
    end.
Proof.
  revert page result w w' out tr; induction fuel as [|fuel IH];
    intros page result w w' out tr Hpage0; cbn [sweep.sweep_loop].
  { intros [= <- <- <-]. cbn. repeat split; try done; intros i pr Hi; by destruct i. }
  assert (Hzero : page = sweep.wrap_int (page + Z.of_nat 0)).
  { cbn. by rewrite Z.add_0_r. }
  destruct (sweep.api_list page w) as [[err|cl] w1].
  { intros [= <- <- <-]. cbn. repeat split.
    - by intros [|i] pr [= <-].
    - intros [|i] pr; cbn; [lia|done].
    - exists (page, inl err). by cbn. }
  destruct (sweep.sweep_page (Connections cl) result w1) as [[result1 w2] tr1] eqn:Hpage.
  apply sweep_page_spec in Hpage as (Hl1 & Hd1 & Hr1).
  destruct (HasNext cl) eqn:Hnext; cbn [negb].
  - destruct (sweep.sweep_loop fuel _ result1 w2) as [[out2 w3] tr2] eqn:Hloop.
    apply IH in Hloop as (Hpages & Hdel & Hnexts & Hout);
      [|apply wrap_int_idemp].
    intros [= <- <- <-].
    assert (Hlisted : listed (sweep.CList page (inr cl) :: tr1 ++ tr2)
                      = (page, inr cl) :: listed tr2).
    { unfold listed at 1. cbn. f_equal. rewrite omap_app. fold (listed tr1) (listed tr2).
      by rewrite Hl1. }
    assert (Hdeleted : deleted (sweep.CList page (inr cl) :: tr1 ++ tr2)
                       = deleted tr1 ++ deleted tr2).
    { unfold deleted at 1. cbn. by rewrite omap_app. }
    rewrite Hlisted, Hdeleted. split; [|split; [|split]].
    + intros [|i] pr; cbn [lookup list_lookup]; [by intros [= <-]|]. intros Hi.
      rewrite (Hpages i pr Hi), wrap_int_add. f_equal. lia.
    + rewrite bind_cons, fmap_app, Hd1, Hdel. done.
    + intros [|i] pr; cbn.
      * intros [= <-] _. by exists cl.
      * intros Hi Hlt. apply (Hnexts i pr Hi). lia.
    + destruct out2 as [res|].
      * destruct Hout as (pr & Hlast & Hres). exists pr. split.
        { rewrite last_cons, Hlast. done. }
        destruct (pr.2) as [err|cl2].
        -- destruct Hres as [-> Htr]. split; [done|].
           rewrite last_cons, last_app, Htr. done.
        -- destruct Hres as [Hn ->]. split; [done|].
           rewrite Hr1, omap_app, !app_assoc. done.
      * destruct Hout as [Hlen Hall]. split; [cbn; by rewrite Hlen|].
        constructor; [by exists cl|done].
  - intros [= <- <- <-].
    assert (Hlisted : listed (sweep.CList page (inr cl) :: tr1) = [(page, inr cl)]).
    { unfold listed at 1. cbn. f_equal. exact Hl1. }
    assert (Hdeleted : deleted (sweep.CList page (inr cl) :: tr1) = deleted tr1) by done.
    rewrite Hlisted, Hdeleted. split; [|split; [|split]].
    + by intros [|i] pr [= <-].
    + cbn. by rewrite app_nil_r.
    + intros [|i] pr; cbn; [lia|done].
    + exists (page, inr cl). split; [done|]. cbn. split; [done|].
      rewrite (ErrorOrNil_default result1). by rewrite Hr1.
Qed.

Lemma sweep_loop_more_fuel (fuel k : nat) (page : Z) (result : sweep.multierror)
    (w w' : W) (res : option sweep.sweep_error) (tr : list sweep.call) :
  sweep.sweep_loop fuel page result w = (Some res, w', tr) →
  sweep.sweep_loop (fuel + k) page result w = (Some res, w', tr).
Proof.
  revert page result w w' tr; induction fuel as [|fuel IH];
    intros page result w w' tr; cbn [sweep.sweep_loop Nat.add]; [done|].
  destruct (sweep.api_list page w) as [[err|cl] w1]; [done|].
  destruct (sweep.sweep_page (Connections cl) result w1) as [[result1 w2] tr1].
  destruct (HasNext cl); cbn [negb]; [|done].
  destruct (sweep.sweep_loop fuel _ result1 w2) as [[out2 w3] tr2] eqn:Hloop.
  intros [= -> <- <-]. by rewrite (IH _ _ _ _ _ Hloop).
Qed.

(** C10. The sweeper lists the pages 0, 1, 2, ... in turn; for every page
    it deletes the connections whose name contains "Test", and no other,
    whatever the deletions return; it goes on while the listing reports a
    next page.  When a listing fails it returns that error and makes no
    further call; otherwise it stops at the first page without a next one
    and returns the errors of all deletions, combined in order (nil when
    there is none).  It runs out of fuel only if every page listed so far
    reported a next page, and a result, once reached, stays with more
    fuel. *)
Theorem sweeper_deletes_test_connections (fuel : nat) (w w' : W)
    (out : option (option sweep.sweep_error)) (tr : list sweep.call) :
  sweep.Connections fuel w = (out, w', tr) →
  (∀ i pr, listed tr !! i = Some pr → pr.1 = sweep.wrap_int (Z.of_nat i))
  ∧ (deleted tr).*1 = listed tr ≫= (λ pr, test_ids (page_connections pr.2))
  ∧ (∀ id, id ∈ (deleted tr).*1 →
       ∃ pr c pre post, pr ∈ listed tr ∧ c ∈ page_connections pr.2
         ∧ ID c = id ∧ Name c = pre +:+ "Test" +:+ post)
  ∧ (∀ i pr, listed tr !! i = Some pr → S i < length (listed tr) → has_next_page pr.2)
  ∧ match out with
    | None => length (listed tr) = fuel ∧ Forall (λ pr, has_next_page pr.2) (listed tr)
    | Some res =>
        (∃ pr, last (listed tr) = Some pr
           ∧ match pr.2 with
             | inl err =>
                 res = Some (sweep.ListError err)
                 ∧ last tr = Some (sweep.CList pr.1 (inl err))
             | inr connectionList =>
                 HasNext connectionList = false
                 ∧ res = sweep.ErrorOrNil (Some (omap snd (deleted tr)))
             end)
        ∧ ∀ k, sweep.Connections (fuel + k) w = (out, w', tr)
    end.
Proof.
  unfold sweep.Connections. intros Hrun.
  destruct (sweep_loop_spec _ _ _ _ _ _ _ eq_refl Hrun) as (Hpages & Hdel & Hnexts & Hout).
  split; [exact Hpages|]. split; [exact Hdel|]. split; [|split; [exact Hnexts|]].
  - intros id Hid. rewrite Hdel in Hid.
    apply list_elem_of_bind in Hid as (pr & Hid & Hpr).
    apply list_elem_of_fmap in Hid as (c & -> & Hc).
    apply list_elem_of_filter in Hc as [Hname Hc].
    apply Contains_iff in Hname as (pre & post & Hname).
    by exists pr, c, pre, post.
  - destruct out as [res|]; [|exact Hout]. split; [exact Hout|].
    intros k. by apply sweep_loop_more_fuel.
Qed.

End SweeperProperties.

Section SweeperOnReference.
Import reference.

(** C10 on a tenant with three test connections on two pages, one of
    which cannot be deleted. *)
Lemma sweeper_deletes_test_connections_witness :
  (sweep.Connections 5 (sample.tenant ∅)).1.1
    = Some (Some (sweep.MultiError [sample.Forbidden]))
  ∧ (deleted (sweep.Connections 5 (sample.tenant ∅)).2).*1 = ["con_a"; "con_c"; "con_d"]
  ∧ sweep.Connections (5 + 2) (sample.tenant ∅) = sweep.Connections 5 (sample.tenant ∅).
Proof.
  destruct (sweep.Connections 5 (sample.tenant ∅)) as [[out w'] tr] eqn:Hrun.
  destruct (sweeper_deletes_test_connections 5 _ _ _ _ Hrun)
    as (_ & _ & _ & _ & Hout).
  vm_compute in Hrun. injection Hrun as <- <- <-.
  split; [reflexivity|]. split; [reflexivity|].
  destruct Hout as [_ Hmore]. apply (Hmore 2).
Defined.

Example sweeper_aborts_on_list_error :
  let '(out, _, tr) := sweep.Connections 5 (sample.tenant {[ 1%Z := NotFound ]}) in
  out = Some (Some (sweep.ListError NotFound))
  ∧ (deleted tr).*1 = ["con_a"]
  ∧ last tr = Some (sweep.CList 1 (inl NotFound)).
Proof. vm_compute. done. Qed.

End SweeperOnReference.

(** ** Interleaved handlers *)

Import concurrent.

Lemma holds_snoc (key : string) (h : list event) (e : event) :
  holds key (h ++ [e]) =
  match e with
  | EvLock k => if String.eqb k key then true else holds key h
  | EvUnlock k => if String.eqb k key then false else holds key h
  | _ => holds key h
  end.
Proof. unfold holds. by rewrite fold_left_app. Qed.

Lemma holds_calls (k p : string) (pre mid : list event) :
  Forall (call_on p) mid → holds k (pre ++ mid) = holds k pre.
Proof.
  induction mid as [|e mid IH] using rev_ind; intros Hmid.
  - by rewrite app_nil_r.
  - apply Forall_app in Hmid as [Hmid He].
    inversion He as [|e0 l0 He0 _]; subst.
    rewrite app_assoc, holds_snoc, (IH Hmid).
    destruct e; try done; destruct He0.
Qed.

(** A thread is in the section of a key exactly in the phase [Inside],
    and for the key of its own parent. *)
Lemma shape_holds (guard : bool) (p k : string) (ph : phase) (h : list event) :
  shape guard p ph h → holds k h = true ↔ k = p ∧ ph = Inside.
Proof.
  assert (Hlock : ∀ mid, Forall (call_on p) mid →
                    holds k (EvLock p :: mid) = String.eqb p k).
  { intros mid Hmid. change (EvLock p :: mid) with ([EvLock p] ++ mid).
    rewrite (holds_calls k p _ mid Hmid). cbn. by destruct (String.eqb p k). }
  destruct ph; cbn [shape].
  - intros Hh. assert (holds k h = false) as ->; [|by split; [|intros [_ ?]]].
    destruct guard; [by rewrite Hh|]. apply (holds_calls k p [] h Hh).
  - intros (_ & mid & -> & Hmid). rewrite (Hlock mid Hmid).
    destruct (String.eqb_spec p k) as [->|Hne]; [done|].
    split; [done|]. by intros [-> _].
  - intros (_ & mid & -> & Hmid).
    rewrite app_comm_cons, holds_snoc, (Hlock mid Hmid).
    destruct (String.eqb p k); by split; [|intros [_ ?]].
Qed.

Lemma shape_one_section (p : string) (ph : phase) (h : list event) :
  shape true p ph h → one_section p h.
Proof.
  destruct ph; cbn [shape].
  - by left.
  - intros (_ & mid & -> & Hmid). right. exists mid. split; [done|by left].
  - intros (_ & mid & -> & Hmid). right. exists mid. split; [done|by right].
Qed.

(** A call on the parent keeps the shape of the history in the call phase. *)
Lemma shape_call (guard : bool) (p : string) (h : list event) (e : event) :
  call_on p e → shape guard p (call_phase guard) h →
  shape guard p (call_phase guard) (h ++ [e]).
Proof.
  intros He. destruct guard; cbn [call_phase shape].
  - intros (_ & mid & -> & Hmid). split; [done|]. exists (mid ++ [e]).
    split; [done|]. apply Forall_app. by split; [|constructor].
  - intros Hh. apply Forall_app. by split; [|constructor].
Qed.

Lemma disciplined_bind {A B : Type} (guard : bool) (key : string) (pmid pend ph : phase)
    (p : prog A) (f : A → prog B) :
  disciplined guard key pmid ph p →
  (∀ a, disciplined guard key pend pmid (f a)) →
  disciplined guard key pend ph (bind p f).
Proof.
  intros Hp Hf. induction Hp; cbn [bind]; try (constructor; by auto). apply Hf.
Qed.

Lemma disciplined_read (guard : bool) (data : ResourceData) :
  disciplined guard (Get data "connection_id") (call_phase guard) (call_phase guard)
    (readConnectionClient data).
Proof.
  unfold readConnectionClient. constructor. intros [err|c].
  - destruct (is_not_found err); constructor.
  - destruct (negb _); constructor.
Qed.

Lemma disciplined_create (data : ResourceData) :
  disciplined true (Get data "connection_id") After Before (createConnectionClient data).
Proof.
  unfold createConnectionClient, defer_Unlock. constructor; [done|].
  apply (disciplined_bind _ _ Inside).
  - apply (disc_Read true). intros [err|c]; [constructor|].
    apply (disc_Update true). intros [err|]; [constructor|].
    apply (disc_UniqueId true). intros uid.
    apply (disciplined_read true (SetId data uid)).
  - intros a. constructor. constructor.
Qed.

Lemma disciplined_delete (data : ResourceData) :
  disciplined true (Get data "connection_id") After Before (deleteConnectionClient data).
Proof.
  unfold deleteConnectionClient, defer_Unlock. constructor; [done|].
  apply (disciplined_bind _ _ Inside).
  - apply (disc_Read true). intros [err|c].
    + destruct (is_not_found err); constructor.
    + apply (disc_Update true). intros [err|]; [|constructor].
      destruct (is_not_found err); constructor.
  - intros a. constructor. constructor.
Qed.

Lemma thread_ok_spawn (j : job) : thread_ok j (mkThread (handler j) []).
Proof.
  exists Before. split.
  - destruct j as [data|data|data]; cbn.
    + apply disciplined_create.
    + apply (disciplined_read false).
    + apply disciplined_delete.
  - by destruct (reconciles j); cbn.
Qed.

Lemma thread_ok_advance (j : job) (t : thread) :
  thread_ok j t →
  match code t with
  | Ret _ => True
  | Lock key next =>
      key = parent j ∧ holds (parent j) (history t) = false
      ∧ thread_ok j (mkThread next (history t ++ [EvLock key]))
  | Unlock key next =>
      key = parent j ∧ holds (parent j) (history t) = true
      ∧ thread_ok j (mkThread next (history t ++ [EvUnlock key]))
  | Read id next => ∀ r, thread_ok j (mkThread (next r) (history t ++ [EvRead id]))
  | Update id clients next =>
      ∀ r, thread_ok j (mkThread (next r) (history t ++ [EvUpdate id clients]))
  | UniqueId next => ∀ r, thread_ok j (mkThread (next r) (history t ++ [EvUniqueId]))
  end.
Proof.
  destruct t as [c h]. intros (ph & Hd & Hs). cbn [code history] in *.
  inversion Hd as [a Hph|next Hg Hnext Hph|next Hnext Hph|next Hnext Hph
                   |clients next Hnext Hph|next Hnext Hph]; subst; try done.
  - cbn [shape] in Hs. rewrite Hg in Hs. subst h. split; [done|]. split; [done|].
    exists Inside. split; [done|]. split; [done|]. by exists [].
  - pose proof (proj2 (shape_holds _ _ (parent j) _ _ Hs) (conj eq_refl eq_refl)) as Hh.
    destruct Hs as (Hg & mid & -> & Hmid). split; [done|]. split; [done|].
    exists After. split; [done|]. split; [done|]. by exists mid.
  - intros r. exists (call_phase (reconciles j)). split; [apply Hnext|].
    by apply shape_call.
  - intros r. exists (call_phase (reconciles j)). split; [apply Hnext|].
    by apply shape_call.
  - intros r. exists (call_phase (reconciles j)). split; [apply Hnext|].
    by apply shape_call.
Qed.

Lemma in_section_insert (ths : list thread) (i j : nat) (t' : thread) (k : string) :
  i < length ths →
  in_section (<[i:=t']> ths) j k ↔
  (j = i ∧ holds k (history t') = true) ∨ (j ≠ i ∧ in_section ths j k).
Proof.
  intros Hi. unfold in_section. destruct (decide (j = i)) as [->|Hne].
  - rewrite list_lookup_insert_eq by done. split.
    + intros (t & [= <-] & Hh). by left.
    + intros [[_ Hh]|[Hne _]]; [by exists t'|done].
  - rewrite list_lookup_insert_ne by done. split.
    + intros Hs. by right.
    + intros [[Heq _]|[_ Hs]]; [done|exact Hs].
Qed.

Lemma held_insert (tbl : mutex.KeyValue) (key k : string) (b : bool) :
  mutex.held (<[key:=b]> tbl) k = if decide (k = key) then b else mutex.held tbl k.
Proof.
  unfold mutex.held, mutex.KeyValue in *. destruct (decide (k = key)) as [->|Hne].
  - by rewrite lookup_insert_eq.
  - by rewrite lookup_insert_ne.
Qed.

(** A step that neither locks nor unlocks. *)
Lemma locks_ok_same (ths : list thread) (tbl : mutex.KeyValue) (i : nat) (t t' : thread) :
  locks_ok ths tbl → ths !! i = Some t →
  (∀ k, holds k (history t') = holds k (history t)) →
  locks_ok (<[i:=t']> ths) tbl.
Proof.
  intros [Htbl Hex] Hi Hsame. apply lookup_lt_Some in Hi as Hlt.
  assert (Hiff : ∀ j k, in_section (<[i:=t']> ths) j k ↔ in_section ths j k).
  { intros j k. rewrite in_section_insert by done. split.
    - intros [[-> Hh]|[_ Hs]]; [|done]. exists t. by rewrite <- Hsame.
    - intros Hs. destruct (decide (j = i)) as [->|Hne]; [left|by right].
      split; [done|]. destruct Hs as (t0 & Ht0 & Hh). rewrite Hsame. congruence. }
  split.
  - intros k. rewrite Htbl. by setoid_rewrite Hiff.
  - intros j1 j2 k. rewrite !Hiff. apply Hex.
Qed.

(** A step that acquires the free key [key]. *)
Lemma locks_ok_lock (ths : list thread) (tbl : mutex.KeyValue) (i : nat) (t t' : thread)
    (key : string) :
  locks_ok ths tbl → ths !! i = Some t →
  mutex.held tbl key = false →
  (∀ k, holds k (history t') = if decide (k = key) then true else holds k (history t)) →
  locks_ok (<[i:=t']> ths) (<[key:=true]> tbl).
Proof.
  intros [Htbl Hex] Hi Hfree Hh'. apply lookup_lt_Some in Hi as Hlt.
  assert (Hnone : ∀ j, ¬ in_section ths j key).
  { intros j Hs. assert (mutex.held tbl key = true) by (apply Htbl; eauto). congruence. }
  assert (Hiff : ∀ j k, in_section (<[i:=t']> ths) j k ↔
                        (j = i ∧ k = key) ∨ (k ≠ key ∧ in_section ths j k)).
  { intros j k. rewrite in_section_insert by done. rewrite Hh'. split.
    - intros [[-> Hh]|[Hne Hs]].
      + destruct (decide (k = key)) as [->|Hk]; [by left|right].
        split; [done|]. by exists t.
      + right. split; [|done]. intros ->. by apply (Hnone j).
    - intros [[-> ->]|[Hk Hs]].
      + left. by rewrite decide_True.
      + destruct (decide (j = i)) as [->|Hne]; [left|by right].
        split; [done|]. rewrite decide_False by done.
        destruct Hs as (t0 & Ht0 & Hh). congruence. }
  split.
  - intros k. rewrite held_insert. setoid_rewrite Hiff.
    destruct (decide (k = key)) as [->|Hk].
    + split; [intros _; exists i; by left|done].
    + rewrite Htbl. split.
      * intros [j Hs]. exists j. by right.
      * intros [j [[_ ?]|[_ Hs]]]; [done|by exists j].
  - intros j1 j2 k. rewrite !Hiff.
    intros [[-> ->]|[Hk1 Hs1]] [[-> Hk]|[Hk2 Hs2]]; try done.
    by apply (Hex j1 j2 k).
Qed.

(** A step that releases [key], held by the thread that steps; that
    thread holds no other key. *)
Lemma locks_ok_unlock (ths : list thread) (tbl : mutex.KeyValue) (i : nat) (t t' : thread)
    (key : string) :
  locks_ok ths tbl → ths !! i = Some t →
  holds key (history t) = true →
  (∀ k, holds k (history t') = if decide (k = key) then false else holds k (history t)) →
  locks_ok (<[i:=t']> ths) (<[key:=false]> tbl).
Proof.
  intros [Htbl Hex] Hi Hheld Hh'. apply lookup_lt_Some in Hi as Hlt.
  assert (Hmine : in_section ths i key) by (by exists t).
  assert (Hiff : ∀ j k, in_section (<[i:=t']> ths) j k ↔
                        k ≠ key ∧ in_section ths j k).
  { intros j k. rewrite in_section_insert by done. rewrite Hh'. split.
    - intros [[-> Hh]|[Hne Hs]].
      + destruct (decide (k = key)) as [->|Hk]; [done|]. split; [done|]. by exists t.
      + split; [|done]. intros ->. apply Hne. by apply (Hex j i key).
    - intros [Hk Hs]. destruct (decide (j = i)) as [->|Hne]; [left|by right].
      split; [done|]. rewrite decide_False by done.
      destruct Hs as (t0 & Ht0 & Hh). congruence. }
  split.
  - intros k. rewrite held_insert. setoid_rewrite Hiff.
    destruct (decide (k = key)) as [->|Hk].
    + split; [done|]. by intros [j [? _]].
    + rewrite Htbl. split.
      * intros [j Hs]. by exists j.
      * intros [j [_ Hs]]. by exists j.
  - intros j1 j2 k. rewrite !Hiff. intros [_ Hs1] [_ Hs2]. by apply (Hex j1 j2 k).
Qed.

Section InterleavingProperties.
Context {W : Type} `{ManagementAPI W}.

Lemma system_ok_spawn (jobs : list job) (w : W) : system_ok jobs (spawn jobs w).
Proof.
  split; cbn.
  - induction jobs as [|j jobs IH]; constructor; [apply thread_ok_spawn|done].
  - assert (Hnone : ∀ i k, ¬ in_section ((λ j, mkThread (handler j) []) <$> jobs) i k).
    { intros i k (t & Ht & Hh). apply list_lookup_fmap_Some in Ht as (j & -> & _).
      done. }
    split.
    + intros k. split; [done|]. intros [i Hs]. by apply Hnone in Hs.
    + intros i j k Hs. by apply Hnone in Hs.
Qed.

Lemma holds_snoc_lock (key k : string) (h : list event) :
  holds k (h ++ [EvLock key]) = if decide (k = key) then true else holds k h.
Proof.
  rewrite holds_snoc. destruct (String.eqb_spec key k) as [->|Hne].
  - by rewrite decide_True.
  - by rewrite decide_False by congruence.
Qed.

Lemma holds_snoc_unlock (key k : string) (h : list event) :
  holds k (h ++ [EvUnlock key]) = if decide (k = key) then false else holds k h.
Proof.
  rewrite holds_snoc. destruct (String.eqb_spec key k) as [->|Hne].
  - by rewrite decide_True.
  - by rewrite decide_False by congruence.
Qed.

Lemma system_ok_insert (jobs : list job) (s : system W) (i : nat) (j : job)
    (t' : thread) (tbl : mutex.KeyValue) (w : W) :
  Forall2 thread_ok jobs (threads s) → jobs !! i = Some j → thread_ok j t' →
  locks_ok (<[i:=t']> (threads s)) tbl →
  system_ok jobs (mkSystem (<[i:=t']> (threads s)) tbl w).
Proof.
  intros Hall Hj Hok Hlocks. split; [|exact Hlocks]. cbn.
  rewrite <- (list_insert_id jobs i j Hj). by apply Forall2_insert.
Qed.

Lemma system_ok_step (jobs : list job) (i : nat) (s s' : system W) :
  system_ok jobs s → step_thread i s = Some s' → system_ok jobs s'.
Proof.
  intros [Hall Hlocks]. unfold step_thread, advance.
  destruct (threads s !! i) as [t|] eqn:Hi; [|done].
  destruct (Forall2_lookup_r _ _ _ _ _ Hall Hi) as (j & Hj & Hok).
  apply thread_ok_advance in Hok.
  destruct (code t) as [a|key next|key next|id next|id clients next|next]; [done|..].
  - destruct Hok as (-> & Hfree & Hok'). unfold mutex.Lock.
    destruct (mutex.held (table s) (parent j)) eqn:Hheld; [done|].
    intros [= <-]. apply (system_ok_insert _ _ _ j); try done.
    apply (locks_ok_lock _ _ _ t); try done. intros k. apply holds_snoc_lock.
  - destruct Hok as (-> & Hmine & Hok'). intros [= <-].
    apply (system_ok_insert _ _ _ j); try done.
    apply (locks_ok_unlock _ _ _ t); try done. intros k. apply holds_snoc_unlock.
  - destruct (api_read id (world s)) as [r w]. intros [= <-].
    apply (system_ok_insert _ _ _ j); try done.
    apply (locks_ok_same _ _ _ t); try done. intros k. cbn [history].
    by rewrite holds_snoc.
  - destruct (api_update id clients (world s)) as [r w]. intros [= <-].
    apply (system_ok_insert _ _ _ j); try done.
    apply (locks_ok_same _ _ _ t); try done. intros k. cbn [history].
    by rewrite holds_snoc.
  - destruct (api_unique_id (world s)) as [r w]. intros [= <-].
    apply (system_ok_insert _ _ _ j); try done.
    apply (locks_ok_same _ _ _ t); try done. intros k. cbn [history].
    by rewrite holds_snoc.
Qed.

Lemma system_ok_reachable (jobs : list job) (s s' : system W) :
  system_ok jobs s → reachable s s' → system_ok jobs s'.
Proof.
  intros Hok Hreach. induction Hreach as [s|s1 s2 s3 [i Hstep] _ IH]; [done|].
  apply IH. by eapply system_ok_step.
Qed.

Lemma run_schedule_reachable (sched : list nat) (s s' : system W) :
  run_schedule sched s = Some s' → reachable s s'.
Proof.
  revert s; induction sched as [|i sched IH]; intros s; cbn [run_schedule].
  - intros [= <-]. apply rtc_refl.
  - destruct (step_thread i s) as [s1|] eqn:Hstep; [|done].
    intros Hrest. eapply rtc_l; [by exists i|by apply IH].
Qed.

(** C1. Among handlers that run interleaved in any way, with the key
    mutex as the spec describes it: no two threads are at once between
    [Lock p] and [Unlock p] for the same parent ID [p]; the history of an
    establish or remove handler is a beginning of [Lock p], fetches and
    writes of its own parent [p], [Unlock p], so that its whole
    fetch-modify-write sequence lies in its one section, and no thread is
    ever in the section of another parent or, when it only observes, in
    any section; a thread that is about to lock [p] can proceed exactly
    when no thread is in the section of [p], whatever is held for other
    parent IDs, and a thread at any other effect can always proceed. *)
Theorem reconciliations_serialized_per_parent (jobs : list job) (w : W) (s : system W) :
  reachable (spawn jobs w) s →
  (∀ i j p, in_section (threads s) i p → in_section (threads s) j p → i = j)
  ∧ (∀ i job t, jobs !! i = Some job → threads s !! i = Some t →
       (reconciles job = true → one_section (parent job) (history t))
       ∧ (∀ p, holds p (history t) = true → reconciles job = true ∧ p = parent job))
  ∧ (∀ i t p next, threads s !! i = Some t → code t = Lock p next →
       (is_Some (step_thread i s) ↔ ∀ j, ¬ in_section (threads s) j p))
  ∧ (∀ i t, threads s !! i = Some t →
       match code t with
       | Ret _ | Lock _ _ => True
       | _ => is_Some (step_thread i s)
       end).
Proof.
  intros Hreach.
  destruct (system_ok_reachable jobs _ _ (system_ok_spawn jobs w) Hreach)
    as [Hall [Htbl Hex]].
  split; [exact Hex|]. split; [|split].
  - intros i job t Hjob Ht.
    destruct (Forall2_lookup_l _ _ _ _ _ Hall Hjob) as (t0 & Ht0 & ph & _ & Hshape).
    assert (t0 = t) as -> by congruence. split.
    + intros Hr. rewrite Hr in Hshape. by eapply shape_one_section.
    + intros p Hp. apply (shape_holds _ _ p _ _ Hshape) in Hp as [-> ->].
      split; [|done]. by destruct Hshape.
  - intros i t p next Ht Hcode. unfold step_thread, mutex.Lock. rewrite Ht, Hcode.
    destruct (mutex.held (table s) p) eqn:Hheld.
    + split; [by intros [? ?]|]. intros Hnone.
      apply Htbl in Hheld as [j Hj]. by apply Hnone in Hj.
    + split; [|by eauto]. intros _ j Hj.
      assert (mutex.held (table s) p = true) by (apply Htbl; eauto). congruence.
  - intros i t Ht. unfold step_thread. rewrite Ht.
    destruct (code t) as [a|key next|key next|id next|id clients next|next]; try done.
    + by destruct (api_read id (world s)).
    + by destruct (api_update id clients (world s)).
    + by destruct (api_unique_id (world s)).
Qed.

End InterleavingProperties.

Section InterleavingOnReference.
Import reference.

(** C1 on three jobs: thread 0 has locked con_1 and fetched it, thread 2
    has locked con_2, and thread 1, which needs con_1, has to wait. *)
Lemma reconciliations_serialized_per_parent_witness :
  ∃ s, run_schedule [0; 0; 2] (spawn sample.jobs sample.two_connections) = Some s
    ∧ reachable (spawn sample.jobs sample.two_connections) s
    ∧ (∀ i j p, in_section (threads s) i p → in_section (threads s) j p → i = j)
    ∧ in_section (threads s) 0 "con_1"
    ∧ in_section (threads s) 2 "con_2"
    ∧ step_thread 1 s = None.
Proof.
  destruct (run_schedule [0; 0; 2] (spawn sample.jobs sample.two_connections))
    as [s|] eqn:Hrun; [|discriminate Hrun].
  exists s. split; [reflexivity|].
  assert (Hreach : reachable (spawn sample.jobs sample.two_connections) s)
    by (exact (run_schedule_reachable _ _ _ Hrun)).
  split; [exact Hreach|].
  destruct (reconciliations_serialized_per_parent _ _ _ Hreach) as (Hex & _).
  split; [exact Hex|].
  vm_compute in Hrun. injection Hrun as <-.
  split; [|split]; [eexists; split; reflexivity..|reflexivity].
Defined.

(** Whatever the order in which the two establishments on con_1 get the
    lock, both clients end up among its members: no update is lost. *)
Example concurrent_establish_keeps_both :
  (s ← run_schedule [0; 2; 0; 2; 0; 2; 0; 2; 0; 0; 1; 1; 1; 1; 1; 1]
         (spawn sample.jobs sample.two_connections);
   c ← store (world s) !! "con_1"; Some (EnabledClients c))
  = Some ["cli_A"; "cli_B"; "cli_C"]
  ∧ (s ← run_schedule [1; 1; 1; 2; 1; 1; 1; 0; 0; 0; 0; 0; 0]
           (spawn sample.jobs sample.two_connections);
     c ← store (world s) !! "con_1"; Some (EnabledClients c))
    = Some ["cli_A"; "cli_C"; "cli_B"].
Proof. split; vm_compute; reflexivity. Qed.

End InterleavingOnReference.

(** * Part III: further properties of the handlers *)

Section HandlersFurther.
Context {W : Type} `{ManagementAPI W}.

(** X1. When the write-back of [createConnectionClient] fails, whatever
    the error, it is returned to the caller: no resource ID is generated,
    the record stays as it was, no confirmation read is made, and the lock
    is released. *)
Theorem create_fails_when_write_fails (data : ResourceData) (w w1 w2 : W)
    (c : Connection) (err : error) :
  api_read (Get data "connection_id") w = (inr c, w1) →
  api_update (Get data "connection_id")
    (EnabledClients c ++ [Get data "client_id"]) w1 = (Some err, w2) →
  let p := Get data "connection_id" in
  run (createConnectionClient data) w
  = ((Some err, data), w2,
     [EvLock p; EvRead p;
      EvUpdate p (EnabledClients c ++ [Get data "client_id"]); EvUnlock p]).
Proof.
  intros Hread Hupd p. subst p. rewrite run_create. cbv zeta.
  by rewrite Hread, Hupd.
Qed.

(** X2. Every run of [deleteConnectionClient], on all its exit paths,
    starts with the lock of the parent ID and ends with its unlock; what
    is between are a fetch and at most one write of that parent, and no
    call is made outside the lock. *)
Theorem delete_holds_lock_throughout (data : ResourceData) (w : W) :
  let p := Get data "connection_id" in
  let tr := (run (deleteConnectionClient data) w).2 in
  (∃ mid, tr = EvLock p :: mid ++ [EvUnlock p]
          ∧ Forall (call_on p) mid
          ∧ (∃ clients, mid = [EvRead p] ∨ mid = [EvRead p; EvUpdate p clients]))
  ∧ outside_lock p false tr = [].
Proof.
  intros p tr. subst tr. rewrite run_delete. cbv zeta. fold p.
  destruct (api_read p w) as [[err|c] w1].
  - cbn. rewrite String.eqb_refl. split; [|done].
    exists [EvRead p]. split; [done|]. split; [by repeat constructor|].
    exists []. by left.
  - destruct (api_update p _ w1) as [r2 w2]. cbn. rewrite String.eqb_refl.
    split; [|done]. eexists [_; _]. split; [done|].
    split; [by repeat constructor|]. eexists. by right.
Qed.

End HandlersFurther.

Section HandlersOnHonestRemote.
Import reference.

(** X1 on a remote that refuses the write. *)
Lemma create_fails_when_write_fails_witness :
  run (createConnectionClient sample.data)
      (sample.remote ["cli_A"] [None; Some sample.Forbidden])
  = ((Some sample.Forbidden, sample.data), sample.remote ["cli_A"] [],
     [EvLock "con_1"; EvRead "con_1"; EvUpdate "con_1" ["cli_A"; "cli_B"];
      EvUnlock "con_1"]).
Proof.
  assert (Hread : api_read (Get sample.data "connection_id")
                    (sample.remote ["cli_A"] [None; Some sample.Forbidden])
                  = (inr (sample.conn ["cli_A"]),
                     sample.remote ["cli_A"] [Some sample.Forbidden])) by reflexivity.
  assert (Hupd : api_update (Get sample.data "connection_id")
                   (EnabledClients (sample.conn ["cli_A"]) ++ [Get sample.data "client_id"])
                   (sample.remote ["cli_A"] [Some sample.Forbidden])
                 = (Some sample.Forbidden, sample.remote ["cli_A"] [])) by reflexivity.
  exact (create_fails_when_write_fails _ _ _ _ _ _ Hread Hupd).
Defined.

Lemma remote_read_honest (id : string) (r : Remote) :
  faults r = [] →
  remote_read id r
  = (match store r !! id with Some c => inr c | None => inl NotFound end, r).
Proof.
  intros Hf. unfold remote_read, next_fault. rewrite Hf.
  by destruct (store r !! id).
Qed.

Lemma remote_update_honest (id : string) (clients : list string) (r : Remote) :
  faults r = [] →
  remote_update id clients r
  = match store r !! id with
    | Some c =>
        (None, mkRemote (<[id := mkConnection (ID c) (Name c) (Strategy c) clients]>
                           (store r)) [] (issued r))
    | None => (Some NotFound, r)
    end.
Proof.
  intros Hf. unfold remote_update, next_fault. rewrite Hf.
  destruct (store r !! id); [|done]. by rewrite Hf.
Qed.

(** The run of [deleteConnectionClient] on a remote without faults. *)
Lemma run_delete_honest (data : ResourceData) (r : Remote) :
  faults r = [] →
  ∃ tr,
    run (deleteConnectionClient data) r
    = ((None, SetId data ""),
       match store r !! Get data "connection_id" with
       | Some c =>
           mkRemote (<[Get data "connection_id" :=
                        mkConnection (ID c) (Name c) (Strategy c)
                          (filter (λ x, x ≠ Get data "client_id") (EnabledClients c))]>
                       (store r)) [] (issued r)
       | None => r
       end, tr).
Proof.
  intros Hf. rewrite run_delete. cbv zeta. cbn [api_read api_update remote_api].
  rewrite remote_read_honest by done.
  destruct (store r !! Get data "connection_id") as [c|] eqn:Hc.
  - rewrite remote_update_honest by done. rewrite Hc. by eexists.
  - by eexists.
Qed.

(** X3. On a remote that answers honestly, [deleteConnectionClient]
    succeeds and clears the record, and a [readConnectionClient] that
    follows at once reports the membership absent: whether or not the
    parent exists, the client ID is not among its members any more. *)
Theorem remove_then_observe_absent (data : ResourceData) (r : Remote) :
  faults r = [] →
  ∃ r' tr r'',
    run (deleteConnectionClient data) r = ((None, SetId data ""), r', tr)
    ∧ (∀ c, store r' !! Get data "connection_id" = Some c →
            Get data "client_id" ∉ EnabledClients c)
    ∧ run (readConnectionClient (SetId data "")) r'
      = ((None, SetId data ""), r'', [EvRead (Get data "connection_id")]).
Proof.
  intros Hf. destruct (run_delete_honest data r Hf) as [tr Hrun].
  set (p := Get data "connection_id") in *. set (m := Get data "client_id") in *.
  destruct (store r !! p) as [c|] eqn:Hc.
  - eexists _, tr, _. split; [exact Hrun|].
    rewrite run_read. change (Get (SetId data "") "connection_id") with p.
    change (Get (SetId data "") "client_id") with m.
    cbn [api_read remote_api].
    rewrite remote_read_honest by done. cbn [store]. rewrite lookup_insert_eq.
    assert (Hnin : m ∉ filter (λ x, x ≠ m) (EnabledClients c)).
    { intros Hin%list_elem_of_filter. by destruct Hin. }
    split.
    + intros c' [= <-]. exact Hnin.
    + cbn [EnabledClients]. by case_bool_decide.
  - eexists _, tr, _. split; [exact Hrun|].
    rewrite run_read. change (Get (SetId data "") "connection_id") with p.
    cbn [api_read remote_api].
    rewrite remote_read_honest by done. rewrite Hc. split; [|done].
    intros c' Hc'. congruence.
Qed.

(** X3 on a remote whose parent has the client among its members. *)
Lemma remove_then_observe_absent_witness :
  ∃ r' tr r'',
    run (deleteConnectionClient sample.data) (sample.remote ["cli_A"; "cli_B"] [])
      = ((None, SetId sample.data ""), r', tr)
    ∧ store r' !! "con_1" = Some (sample.conn ["cli_A"])
    ∧ run (readConnectionClient (SetId sample.data "")) r'
      = ((None, SetId sample.data ""), r'', [EvRead "con_1"]).
Proof.
  destruct (remove_then_observe_absent sample.data
              (sample.remote ["cli_A"; "cli_B"] []) eq_refl)
    as (r' & tr & r'' & Hdel & _ & Hobs).
  exists r', tr, r''. split; [exact Hdel|]. split; [|exact Hobs].
  vm_compute in Hdel. by injection Hdel as <- _.
Defined.

Lemma filter_not_elem_of (m : string) (l : list string) :
  m ∉ l → filter (λ x, x ≠ m) l = l.
Proof.
  induction l as [|x l IH]; [done|]. intros Hnin.
  apply not_elem_of_cons in Hnin as [Hne Hnin].
  rewrite filter_cons_True by congruence. by rewrite IH.
Qed.

Lemma filter_drop_appended (m : string) (l : list string) :
  filter (λ x, x ≠ m) (l ++ [m]) = filter (λ x, x ≠ m) l.
Proof.
  rewrite filter_app, filter_cons_False by (intros Hc; by apply Hc).
  by rewrite filter_nil, app_nil_r.
Qed.

(** The run of [createConnectionClient] on a remote without faults that
    holds the parent. *)
Lemma run_create_honest (data : ResourceData) (r : Remote) (c : Connection) :
  faults r = [] → store r !! Get data "connection_id" = Some c →
  ∃ tr,
    run (createConnectionClient data) r
    = ((None, Set_ (Set_ (SetId data ("terraform-" +:+ pretty (issued r)))
                      "name" (Name c)) "strategy" (Strategy c)),
       mkRemote (<[Get data "connection_id" :=
                    mkConnection (ID c) (Name c) (Strategy c)
                      (EnabledClients c ++ [Get data "client_id"])]> (store r))
                [] (S (issued r)), tr).
Proof.
  intros Hf Hc. rewrite run_create. cbv zeta. cbn [api_read api_update remote_api].
  rewrite remote_read_honest, Hc by done.
  rewrite remote_update_honest, Hc by done.
  cbn [api_unique_id remote_api remote_unique_id store faults issued].
  rewrite run_read. cbn [api_read remote_api].
  rewrite remote_read_honest by done. cbn [store].
  change (Get (SetId data _) "connection_id") with (Get data "connection_id").
  change (Get (SetId data _) "client_id") with (Get data "client_id").
  rewrite lookup_insert_eq. cbn [EnabledClients Name Strategy].
  rewrite bool_decide_eq_true_2; [by eexists|].
  apply elem_of_app. right. apply list_elem_of_here.
Qed.

(** X4. On a remote that answers honestly and holds the parent,
    establishing a membership and then removing it leaves the parent with
    its former members except the client ID; when the client was no
    member before, the remote is back to the connections it had, and
    other parents are never touched. *)
Theorem establish_then_remove_restores (data : ResourceData) (r : Remote) (c : Connection) :
  faults r = [] → store r !! Get data "connection_id" = Some c →
  ∃ data1 r1 tr1 r2 tr2,
    run (createConnectionClient data) r = ((None, data1), r1, tr1)
    ∧ Id data1 ≠ ""
    ∧ run (deleteConnectionClient data1) r1 = ((None, SetId data1 ""), r2, tr2)
    ∧ store r2
      = <[Get data "connection_id" :=
           mkConnection (ID c) (Name c) (Strategy c)
             (filter (λ x, x ≠ Get data "client_id") (EnabledClients c))]> (store r)
    ∧ (Get data "client_id" ∉ EnabledClients c → store r2 = store r).
Proof.
  intros Hf Hc. destruct (run_create_honest data r c Hf Hc) as [tr1 Hcreate].
  set (p := Get data "connection_id") in *. set (m := Get data "client_id") in *.
  set (data1 := Set_ _ "strategy" _) in Hcreate. set (r1 := mkRemote _ _ _) in Hcreate.
  assert (Hp1 : Get data1 "connection_id" = p).
  { unfold data1, Get, Set_; cbn. by rewrite !lookup_insert_ne by done. }
  assert (Hm1 : Get data1 "client_id" = m).
  { unfold data1, Get, Set_; cbn. by rewrite !lookup_insert_ne by done. }
  destruct (run_delete_honest data1 r1 eq_refl) as [tr2 Hdelete].
  assert (Hs1 : store r1 = <[p := mkConnection (ID c) (Name c) (Strategy c)
                                       (EnabledClients c ++ [m])]> (store r))
    by reflexivity.
  rewrite Hp1, Hm1, Hs1, lookup_insert_eq in Hdelete.
  cbn [ID Name Strategy EnabledClients] in Hdelete.
  rewrite filter_drop_appended, insert_insert_eq in Hdelete.
  eexists data1, r1, tr1, _, tr2. split; [exact Hcreate|].
  split; [done|]. split; [exact Hdelete|]. split; [done|].
  intros Hnin. cbn [store]. rewrite filter_not_elem_of by done.
  apply insert_id. by destruct c.
Qed.

(** X4 on a parent that did not have the client among its members. *)
Lemma establish_then_remove_restores_witness :
  ∃ data1 r1 tr1 r2 tr2,
    run (createConnectionClient sample.data) (sample.remote ["cli_A"] [])
      = ((None, data1), r1, tr1)
    ∧ run (deleteConnectionClient data1) r1 = ((None, SetId data1 ""), r2, tr2)
    ∧ store r2 = store (sample.remote ["cli_A"] []).
Proof.
  destruct (establish_then_remove_restores sample.data (sample.remote ["cli_A"] [])
              (sample.conn ["cli_A"]) eq_refl eq_refl)
    as (data1 & r1 & tr1 & r2 & tr2 & Hc & _ & Hd & _ & Hback).
  exists data1, r1, tr1, r2, tr2. split; [exact Hc|]. split; [exact Hd|].
  apply Hback. cbn. rewrite elem_of_cons, elem_of_nil. by intros [?|[]].
Defined.

(** X5. On a remote that answers honestly, removing a membership a second
    time succeeds like the first time and changes no connection: the
    removal is idempotent. *)
Theorem remove_twice_is_remove_once (data : ResourceData) (r : Remote) :
  faults r = [] →
  ∃ r1 tr1 r2 tr2,
    run (deleteConnectionClient data) r = ((None, SetId data ""), r1, tr1)
    ∧ run (deleteConnectionClient data) r1 = ((None, SetId data ""), r2, tr2)
    ∧ store r2 = store r1.
Proof.
  intros Hf. destruct (run_delete_honest data r Hf) as [tr1 Hfirst].
  set (p := Get data "connection_id") in *. set (m := Get data "client_id") in *.
  destruct (store r !! p) as [c|] eqn:Hc.
  - set (r1 := mkRemote _ _ _) in Hfirst.
    destruct (run_delete_honest data r1 eq_refl) as [tr2 Hsecond].
    assert (Hs1 : store r1 = <[p := mkConnection (ID c) (Name c) (Strategy c)
                                         (filter (λ x, x ≠ m) (EnabledClients c))]>
                               (store r)) by reflexivity.
    fold p m in Hsecond. rewrite Hs1, lookup_insert_eq in Hsecond.
    cbn [ID Name Strategy EnabledClients] in Hsecond.
    eexists r1, tr1, _, tr2. split; [exact Hfirst|]. split; [exact Hsecond|].
    cbn [store]. rewrite insert_insert_eq, Hs1. f_equal. f_equal.
    rewrite list_filter_filter. apply list_filter_iff. tauto.
  - destruct (run_delete_honest data r Hf) as [tr2 Hsecond].
    fold p in Hsecond. rewrite Hc in Hsecond.
    by exists r, tr1, r, tr2.
Qed.

(** X5 on a parent that has the client twice among its members. *)
Lemma remove_twice_is_remove_once_witness :
  ∃ r1 tr1 r2 tr2,
    run (deleteConnectionClient sample.data)
        (sample.remote ["cli_B"; "cli_A"; "cli_B"] [])
      = ((None, SetId sample.data ""), r1, tr1)
    ∧ run (deleteConnectionClient sample.data) r1 = ((None, SetId sample.data ""), r2, tr2)
    ∧ store r2 = store r1
    ∧ store r1 !! "con_1" = Some (sample.conn ["cli_A"]).
Proof.
  destruct (remove_twice_is_remove_once sample.data
              (sample.remote ["cli_B"; "cli_A"; "cli_B"] []) eq_refl)
    as (r1 & tr1 & r2 & tr2 & H1 & H2 & Heq).
  exists r1, tr1, r2, tr2. split; [exact H1|]. split; [exact H2|]. split; [exact Heq|].
  vm_compute in H1. by injection H1 as <- _.
Defined.

End HandlersOnHonestRemote.

(** * Part IV: the schema upgrades *)

Section SchemaUpgrades.
Variable Atoi : string → Z * option error.

(** X6. [connectionSchemaUpgradeV1] panics exactly on a state whose
    non-empty options list does not start with a map.  Otherwise it
    returns a nil error, and the state is the one it was given unless
    the first options map has a validation entry: then that entry is
    wrapped as the username validation and the options become the list
    of that one map. *)
Theorem connectionSchemaUpgradeV1_wraps_or_keeps (state : gmap string value) :
  (options_well_shaped state = false ↔ connectionSchemaUpgradeV1 state = Panicked)
  ∧ (∀ m v, first_option state = Some m → m !! "validation" = Some v →
       connectionSchemaUpgradeV1 state
       = Returned (<["options" :=
                      VList [VMap (<["validation" := username_validation v]> m)]]> state,
                   None))
  ∧ (options_well_shaped state = true →
     (∀ m, first_option state = Some m → m !! "validation" = None) →
     connectionSchemaUpgradeV1 state = Returned (state, None))
  ∧ (∀ state' err, connectionSchemaUpgradeV1 state = Returned (state', err) → err = None).
Proof.
  unfold options_well_shaped, first_option, connectionSchemaUpgradeV1.
  destruct (state !! "options") as [[| | | |[|[| | | | |m] rest]|]|];
    repeat split; try done; try (by intros ? ? [= _ <-]).
  - by destruct (m !! "validation").
  - intros m' v [= <-] ->. done.
  - intros _ Hnone. by rewrite (Hnone m eq_refl).
  - intros state' err. destruct (m !! "validation"); by intros [= _ <-].
Qed.

(** X7. [connectionSchemaUpgradeV0] is idempotent: applied to a state it
    returned, it returns that state unchanged, because a migrated
    strategy_version is no string any more. *)
Theorem connectionSchemaUpgradeV0_idempotent (state state' : gmap string value)
    (err : option error) :
  connectionSchemaUpgradeV0 Atoi state = Returned (state', err) →
  connectionSchemaUpgradeV0 Atoi state' = Returned (state', None).
Proof.
  unfold connectionSchemaUpgradeV0 at 1.
  destruct (state !! "options") as [[| | | |[|[| | | | |m] rest]|]|] eqn:Hopts;
    try done; try (intros [= <- _]; unfold connectionSchemaUpgradeV0; by rewrite Hopts).
  destruct (m !! "strategy_version") as [[| | |s| |]|] eqn:Hsv;
    try (intros [= <- _]; unfold connectionSchemaUpgradeV0; by rewrite Hopts, Hsv).
  destruct (Atoi s) as [n [e|]]; intros [= <- _];
    unfold connectionSchemaUpgradeV0; by rewrite !lookup_insert_eq.
Qed.

Lemma keeps_other_entries_refl (key : string) (state : gmap string value) :
  keeps_other_entries key state state.
Proof. split; [done|]. split; [done|]. intros m Hm. by exists m. Qed.

Lemma keeps_other_entries_set (key : string) (state m : gmap string value)
    (v old : value) (rest : list value) :
  state !! "options" = Some (VList (VMap m :: rest)) → m !! key = Some old →
  keeps_other_entries key state
    (<["options" := VList [VMap (<[key := v]> m)]]> state).
Proof.
  intros Hopts Hold. split; [|split].
  - by apply dom_insert_lookup_L.
  - intros k Hk. by rewrite lookup_insert_ne.
  - unfold first_option. rewrite Hopts, lookup_insert_eq. intros m0 [= <-].
    eexists. split; [done|]. split; [by apply dom_insert_lookup_L|].
    intros k Hk. by rewrite lookup_insert_ne.
Qed.

(** X8. An upgrade that returns keeps the keys of the state and the
    values of all of them but "options"; the first options map keeps its
    keys too, and all its values but the migrated one (strategy_version
    for V0, validation for V1). *)
Theorem upgrades_keep_other_entries (state state' : gmap string value)
    (err : option error) :
  (connectionSchemaUpgradeV0 Atoi state = Returned (state', err) →
     keeps_other_entries "strategy_version" state state')
  ∧ (connectionSchemaUpgradeV1 state = Returned (state', err) →
       keeps_other_entries "validation" state state').
Proof.
  split; intros Hrun.
  - unfold connectionSchemaUpgradeV0 in Hrun.
    destruct (state !! "options") as [[| | | |[|[| | | | |m] rest]|]|] eqn:Hopts;
      try done; try (injection Hrun as <- _; by apply keeps_other_entries_refl).
    destruct (m !! "strategy_version") as [[| | |s| |]|] eqn:Hsv;
      try (injection Hrun as <- _; by apply keeps_other_entries_refl).
    destruct (Atoi s) as [n [e|]]; injection Hrun as <- _;
      by eapply keeps_other_entries_set.
  - unfold connectionSchemaUpgradeV1 in Hrun.
    destruct (state !! "options") as [[| | | |[|[| | | | |m] rest]|]|] eqn:Hopts;
      try done; try (injection Hrun as <- _; by apply keeps_other_entries_refl).
    destruct (m !! "validation") as [v|] eqn:Hv;
      [|injection Hrun as <- _; by apply keeps_other_entries_refl].
    injection Hrun as <- _. by eapply keeps_other_entries_set.
Qed.

Lemma upgrade_v0_result (state s0 : gmap string value) (e0 : option error) :
  connectionSchemaUpgradeV0 Atoi state = Returned (s0, e0) →
  options_well_shaped state = true
  ∧ e0 = None
  ∧ s0 = match string_strategy_version state with
         | Some (m, s) =>
             <["options" :=
                VList [VMap (<["strategy_version" := VInt (migrated_version Atoi s)]> m)]]>
               state
         | None => state
         end.
Proof.
  intros Hrun.
  assert (Hshape : options_well_shaped state = true).
  { destruct (options_well_shaped state) eqn:Hs; [done|].
    apply upgrade_v0_panics with (Atoi := Atoi) in Hs. congruence. }
  split; [done|]. split; [by eapply upgrade_v0_never_errors|].
  destruct (string_strategy_version state) as [[m s]|] eqn:Hssv.
  - rewrite (upgrade_v0_migrates Atoi state m s Hssv) in Hrun. congruence.
  - rewrite (upgrade_v0_unchanged Atoi state Hshape Hssv) in Hrun. congruence.
Qed.

Lemma upgrade_v1_eq (state : gmap string value) :
  options_well_shaped state = true →
  connectionSchemaUpgradeV1 state
  = Returned (match validation_option state with
              | Some (m, v) =>
                  <["options" := VList [VMap (<["validation" := username_validation v]> m)]]>
                    state
              | None => state
              end, None).
Proof.
  unfold options_well_shaped, validation_option, first_option, connectionSchemaUpgradeV1.
  destruct (state !! "options") as [[| | | |[|[| | | | |m] rest]|]|]; try done.
  by destruct (m !! "validation").
Qed.

Lemma upgrade_v0_eq (state : gmap string value) :
  options_well_shaped state = true →
  connectionSchemaUpgradeV0 Atoi state
  = Returned (match string_strategy_version state with
              | Some (m, s) =>
                  <["options" :=
                     VList [VMap (<["strategy_version" := VInt (migrated_version Atoi s)]> m)]]>
                    state
              | None => state
              end, None).
Proof.
  intros Hshape. destruct (string_strategy_version state) as [[m s]|] eqn:Hssv.
  - by apply upgrade_v0_migrates.
  - by apply upgrade_v0_unchanged.
Qed.

(** The state with its options replaced by the list of the one map [m]. *)
Lemma upgraded_state_shape (state m : gmap string value) :
  options_well_shaped (<["options" := VList [VMap m]]> state) = true
  ∧ first_option (<["options" := VList [VMap m]]> state) = Some m.
Proof.
  unfold options_well_shaped, first_option. by rewrite lookup_insert_eq.
Qed.

(** X9. The two upgrades commute: on a state on which both return,
    migrating strategy_version and then wrapping validation gives the
    state that wrapping and then migrating gives. *)
Theorem schema_upgrades_commute (state s0 s1 : gmap string value)
    (e0 e1 : option error) :
  connectionSchemaUpgradeV0 Atoi state = Returned (s0, e0) →
  connectionSchemaUpgradeV1 state = Returned (s1, e1) →
  ∃ s, connectionSchemaUpgradeV1 s0 = Returned (s, None)
       ∧ connectionSchemaUpgradeV0 Atoi s1 = Returned (s, None).
Proof.
  intros H0 H1. apply upgrade_v0_result in H0 as (Hshape & -> & ->).
  rewrite (upgrade_v1_eq state Hshape) in H1. injection H1 as <- _.
  assert (Hplain : string_strategy_version state = None → validation_option state = None →
                   ∃ s, connectionSchemaUpgradeV1 state = Returned (s, None)
                        ∧ connectionSchemaUpgradeV0 Atoi state = Returned (s, None)).
  { intros Hs Hv. exists state.
    by rewrite (upgrade_v1_eq state Hshape), (upgrade_v0_eq state Hshape), Hs, Hv. }
  assert (Hnew : ∀ m', connectionSchemaUpgradeV1 (<["options" := VList [VMap m']]> state)
      = Returned (match m' !! "validation" with
                  | Some v => <["options" :=
                                 VList [VMap (<["validation" := username_validation v]> m')]]>
                                state
                  | None => <["options" := VList [VMap m']]> state
                  end, None)
    ∧ connectionSchemaUpgradeV0 Atoi (<["options" := VList [VMap m']]> state)
      = Returned (match m' !! "strategy_version" with
                  | Some (VString s) =>
                      <["options" :=
                         VList [VMap (<["strategy_version" :=
                                         VInt (migrated_version Atoi s)]> m')]]> state
                  | _ => <["options" := VList [VMap m']]> state
                  end, None)).
  { intros m'. destruct (upgraded_state_shape state m') as [Hs Hf]. split.
    - rewrite (upgrade_v1_eq _ Hs). unfold validation_option. rewrite Hf.
      destruct (m' !! "validation"); by rewrite ?insert_insert_eq.
    - rewrite (upgrade_v0_eq _ Hs). unfold string_strategy_version.
      rewrite lookup_insert_eq.
      destruct (m' !! "strategy_version") as [[| | |str| |]|];
        by rewrite ?insert_insert_eq. }
  unfold string_strategy_version, validation_option, first_option in *.
  destruct (state !! "options") as [[| | | |[|[| | | | |m] rest]|]|] eqn:Hopts;
    try (by apply Hplain); try done.
  destruct (m !! "validation") as [v|] eqn:Hv;
    destruct (m !! "strategy_version") as [[| | |str| |]|] eqn:Hsv;
    try (by apply Hplain).
  all: try (eexists; split;
            [apply upgrade_v1_eq; unfold options_well_shaped; by rewrite Hopts|];
            destruct (Hnew (<["validation" := username_validation v]> m)) as [_ ->];
            rewrite lookup_insert_ne, Hsv by done;
            unfold validation_option, first_option; by rewrite Hopts, Hv).
  - eexists. destruct (Hnew (<["strategy_version" := VInt (migrated_version Atoi str)]> m))
      as [-> _].
    destruct (Hnew (<["validation" := username_validation v]> m)) as [_ ->].
    rewrite !lookup_insert_ne, Hv, Hsv by done. split; [done|].
    by rewrite insert_insert_ne.
  - eexists. destruct (Hnew (<["strategy_version" := VInt (migrated_version Atoi str)]> m))
      as [-> _].
    rewrite lookup_insert_ne, Hv by done. split; [done|].
    rewrite (upgrade_v0_eq state Hshape). unfold string_strategy_version.
    by rewrite Hopts, Hsv.
Qed.

End SchemaUpgrades.

(** X6 on a state with a validation entry. *)
Lemma connectionSchemaUpgradeV1_wraps_or_keeps_witness :
  connectionSchemaUpgradeV1 state_with_validation
  = Returned ({[ "name" := VString "corp-directory";
                 "options" :=
                   VList [VMap {[ "strategy_version" := VString "2";
                                  "validation" :=
                                    username_validation (VMap {[ "min" := VInt 1 ]}) ]}] ]},
              None).
Proof.
  destruct (connectionSchemaUpgradeV1_wraps_or_keeps state_with_validation)
    as (_ & Hwrap & _).
  rewrite (Hwrap options_with_validation (VMap {[ "min" := VInt 1 ]}) eq_refl eq_refl).
  reflexivity.
Defined.

(** X7 on a state whose strategy_version is the string 3. *)
Lemma connectionSchemaUpgradeV0_idempotent_witness :
  connectionSchemaUpgradeV0 strconv.Atoi (sample.state_v0 (VString "3"))
    = Returned (sample.state_v0 (VInt 3), None)
  ∧ connectionSchemaUpgradeV0 strconv.Atoi (sample.state_v0 (VInt 3))
    = Returned (sample.state_v0 (VInt 3), None).
Proof.
  assert (Hrun : connectionSchemaUpgradeV0 strconv.Atoi (sample.state_v0 (VString "3"))
                 = Returned (sample.state_v0 (VInt 3), None)) by reflexivity.
  split; [exact Hrun|].
  exact (connectionSchemaUpgradeV0_idempotent strconv.Atoi _ _ _ Hrun).
Defined.

(** X8 on a state whose strategy_version is the string 3. *)
Lemma upgrades_keep_other_entries_witness :
  keeps_other_entries "strategy_version"
    (sample.state_v0 (VString "3")) (sample.state_v0 (VInt 3))
  ∧ keeps_other_entries "validation" state_with_validation
      (<["options" :=
          VList [VMap (<["validation" := username_validation (VMap {[ "min" := VInt 1 ]})]>
                         options_with_validation)]]> state_with_validation).
Proof.
  split.
  - by apply (proj1 (upgrades_keep_other_entries strconv.Atoi
                       (sample.state_v0 (VString "3")) (sample.state_v0 (VInt 3)) None)).
  - by apply (proj2 (upgrades_keep_other_entries strconv.Atoi state_with_validation _ None)).
Defined.

(** X9 on a state with both entries. *)
Lemma schema_upgrades_commute_witness :
  ∃ s0 s1 s,
    connectionSchemaUpgradeV0 strconv.Atoi state_with_validation = Returned (s0, None)
    ∧ connectionSchemaUpgradeV1 state_with_validation = Returned (s1, None)
    ∧ connectionSchemaUpgradeV1 s0 = Returned (s, None)
    ∧ connectionSchemaUpgradeV0 strconv.Atoi s1 = Returned (s, None)
    ∧ first_option s
      = Some {[ "strategy_version" := VInt 2;
                "validation" := username_validation (VMap {[ "min" := VInt 1 ]}) ]}.
Proof.
  destruct (connectionSchemaUpgradeV0 strconv.Atoi state_with_validation)
    as [[s0 e0]|] eqn:H0; [|discriminate H0].
  destruct (connectionSchemaUpgradeV1 state_with_validation)
    as [[s1 e1]|] eqn:H1; [|discriminate H1].
  destruct (schema_upgrades_commute strconv.Atoi _ _ _ _ _ H0 H1) as (s & Hs0 & Hs1).
  vm_compute in H0. injection H0 as <- <-.
  vm_compute in H1. injection H1 as <- <-.
  eexists _, _, s. split; [reflexivity|]. split; [reflexivity|].
  split; [exact Hs0|]. split; [exact Hs1|].
  vm_compute in Hs0. injection Hs0 as <-. reflexivity.
Defined.

(** * Part V: the trigger binding handlers *)

Section TriggerBindingProperties.
Import action.
Context {B C F W : Type} `{TriggerAPI B W}.
Variable expand : C → list B.
Variable flatten : list B → F.

(** X10. The write of a trigger binding handler decides its outcome.
    When [UpdateBindings] fails in [createTriggerBinding] or
    [updateTriggerBinding], the error is returned, the record is left as
    it was (no ID is set) and no read follows; when it succeeds, the
    outcome is that of [readTriggerBinding], for create on the record
    whose ID is the trigger.  [deleteTriggerBinding] always writes the
    empty list of bindings and nothing else: a NotFound clears the
    record without error, another error is returned, a success returns
    nil and keeps the record. *)
Theorem trigger_handlers_follow_the_write (d : TriggerData C F) (w : W) :
  (∀ err w1, api_update_bindings (t_trigger d) (expand (t_raw_actions d)) w = (Some err, w1) →
     createTriggerBinding expand flatten d w
     = (Some err, d, w1, [CUpdateBindings (t_trigger d) (expand (t_raw_actions d))]))
  ∧ (∀ w1, api_update_bindings (t_trigger d) (expand (t_raw_actions d)) w = (None, w1) →
       ∃ diags d' w2 tr,
         readTriggerBinding flatten (t_SetId d (t_trigger d)) w1 = (diags, d', w2, tr)
         ∧ createTriggerBinding expand flatten d w
           = (diags, d', w2,
              CUpdateBindings (t_trigger d) (expand (t_raw_actions d)) :: tr))
  ∧ (∀ err w1, api_update_bindings (t_Id d) (expand (t_raw_actions d)) w = (Some err, w1) →
       updateTriggerBinding expand flatten d w
       = (Some err, d, w1, [CUpdateBindings (t_Id d) (expand (t_raw_actions d))]))
  ∧ (∀ r w1, api_update_bindings (t_Id d) [] w = (r, w1) →
       deleteTriggerBinding d w
       = (match r with
          | Some err => if is_not_found err then (None, t_SetId d "") else (Some err, d)
          | None => (None, d)
          end, w1, [CUpdateBindings (t_Id d) []])).
Proof.
  unfold createTriggerBinding, updateTriggerBinding, deleteTriggerBinding.
  split; [|split; [|split]].
  - by intros err w1 ->.
  - intros w1 ->.
    destruct (readTriggerBinding flatten (t_SetId d (t_trigger d)) w1)
      as [[[diags d'] w2] tr]. by exists diags, d', w2, tr.
  - by intros err w1 ->.
  - intros r w1 ->. destruct r as [err|]; [|done]. by destruct (is_not_found err).
Qed.

End TriggerBindingProperties.

Section TriggerBindingOnReference.
Import action.
Context {B C F : Type}.
Variable expand : C → list B.
Variable flatten : list B → F.

Lemma triggers_bindings_honest (id : string) (r : Triggers B) :
  t_faults r = [] →
  triggers_bindings id r
  = (match bound r !! id with Some bs => inr bs | None => inl reference.NotFound end, r).
Proof.
  intros Hf. unfold triggers_bindings, t_next_fault. rewrite Hf.
  by destruct (bound r !! id).
Qed.

Lemma triggers_update_honest (id : string) (bs : list B) (r : Triggers B) :
  t_faults r = [] →
  triggers_update_bindings id bs r
  = match bound r !! id with
    | Some _ => (None, mkTriggers (<[id := bs]> (bound r)) [])
    | None => (Some reference.NotFound, r)
    end.
Proof.
  intros Hf. unfold triggers_update_bindings, t_next_fault. rewrite Hf.
  destruct (bound r !! id); [|done]. by rewrite Hf.
Qed.

(** X11. On a remote that answers honestly and knows the trigger,
    [createTriggerBinding] stores exactly the expanded actions of the
    configuration as the bindings of the trigger, sets the ID of the
    record to the trigger and its actions to the flattened stored
    bindings; a [readTriggerBinding] that follows returns the record
    unchanged. *)
Theorem trigger_create_then_read_stable (d : TriggerData C F) (r : Triggers B) :
  t_faults r = [] → is_Some (bound r !! t_trigger d) →
  let bs := expand (t_raw_actions d) in
  let d' := mkTriggerData (t_trigger d) (t_trigger d) (t_raw_actions d)
              (Some (flatten bs)) in
  let r' := mkTriggers (<[t_trigger d := bs]> (bound r)) [] in
  createTriggerBinding expand flatten d r
    = (None, d', r', [CUpdateBindings (t_trigger d) bs; CBindings (t_trigger d)])
  ∧ readTriggerBinding flatten d' r' = (None, d', r', [CBindings (t_trigger d)]).
Proof.
  intros Hf [old Hold] bs d' r'.
  assert (Hread : ∀ d0 : TriggerData C F, t_Id d0 = t_trigger d →
            readTriggerBinding flatten d0 r'
            = (None, t_SetActions d0 (flatten bs), r', [CBindings (t_trigger d)])).
  { intros d0 Hid. unfold readTriggerBinding. cbn [api_bindings triggers_api].
    rewrite Hid, triggers_bindings_honest by done. cbn [bound r'].
    by rewrite lookup_insert_eq. }
  split.
  - unfold createTriggerBinding. cbn [api_update_bindings triggers_api].
    rewrite triggers_update_honest, Hold by done. fold bs r'.
    by rewrite (Hread (t_SetId d (t_trigger d)) eq_refl).
  - by rewrite (Hread d' eq_refl).
Qed.

(** X12. On a remote that answers honestly and knows the trigger of the
    record, [deleteTriggerBinding] leaves the trigger without bindings,
    whatever they were, and all other triggers as they are; it returns
    nil and a [readTriggerBinding] that follows finds the trigger, with
    the flattened empty list as its actions. *)
Theorem trigger_delete_unbinds (d : TriggerData C F) (r : Triggers B) :
  t_faults r = [] → is_Some (bound r !! t_Id d) →
  let r' := mkTriggers (<[t_Id d := []]> (bound r)) [] in
  deleteTriggerBinding d r = (None, d, r', [CUpdateBindings (t_Id d) []])
  ∧ (∀ id, id ≠ t_Id d → bound r' !! id = bound r !! id)
  ∧ readTriggerBinding flatten d r'
    = (None, t_SetActions d (flatten []), r', [CBindings (t_Id d)]).
Proof.
  intros Hf [old Hold] r'. split; [|split].
  - unfold deleteTriggerBinding. cbn [api_update_bindings triggers_api].
    by rewrite triggers_update_honest, Hold by done.
  - intros id Hid. cbn [bound r']. by rewrite lookup_insert_ne.
  - unfold readTriggerBinding. cbn [api_bindings triggers_api].
    rewrite triggers_bindings_honest by done. cbn [bound r'].
    by rewrite lookup_insert_eq.
Qed.

End TriggerBindingOnReference.

Section TriggerBindingWitnesses.
Import action.

(** X10 on a remote that refuses the write of a create. *)
Lemma trigger_handlers_follow_the_write_witness :
  createTriggerBinding (λ c : list string, c) (λ bs : list string, bs)
    (mkTriggerData "" "post-login" ["act_1"] None)
    (mkTriggers {[ "post-login" := [] ]} [Some sample.Forbidden])
  = (Some sample.Forbidden, mkTriggerData "" "post-login" ["act_1"] None,
     mkTriggers {[ "post-login" := [] ]} [],
     [CUpdateBindings "post-login" ["act_1"]]).
Proof.
  destruct (trigger_handlers_follow_the_write (λ c : list string, c)
              (λ bs : list string, bs)
              (mkTriggerData "" "post-login" ["act_1"] None)
              (mkTriggers {[ "post-login" := [] ]} [Some sample.Forbidden]))
    as (Hfail & _).
  exact (Hfail sample.Forbidden (mkTriggers {[ "post-login" := [] ]} []) eq_refl).
Defined.

(** X11 on a trigger that had another binding. *)
Lemma trigger_create_then_read_stable_witness :
  createTriggerBinding (λ c : list string, c) (λ bs : list string, bs)
    (mkTriggerData "" "post-login" ["act_1"; "act_2"] None)
    (mkTriggers {[ "post-login" := ["act_0"] ]} [])
  = (None, mkTriggerData "post-login" "post-login" ["act_1"; "act_2"]
             (Some ["act_1"; "act_2"]),
     mkTriggers (<["post-login" := ["act_1"; "act_2"]]> {[ "post-login" := ["act_0"] ]}) [],
     [CUpdateBindings "post-login" ["act_1"; "act_2"]; CBindings "post-login"]).
Proof.
  refine (proj1 (trigger_create_then_read_stable (λ c : list string, c)
                   (λ bs : list string, bs)
                   (mkTriggerData "" "post-login" ["act_1"; "act_2"] None)
                   (mkTriggers {[ "post-login" := ["act_0"] ]} []) eq_refl _)).
  by exists ["act_0"].
Defined.

(** X12 on a trigger with two bindings. *)
Lemma trigger_delete_unbinds_witness :
  deleteTriggerBinding
    (mkTriggerData "post-login" "post-login" ["act_1"] (Some ["act_1"; "act_2"]))
    (mkTriggers {[ "post-login" := ["act_1"; "act_2"] ]} [])
  = (None, mkTriggerData "post-login" "post-login" ["act_1"] (Some ["act_1"; "act_2"]),
     mkTriggers (<["post-login" := []]> {[ "post-login" := ["act_1"; "act_2"] ]}) [],
     [CUpdateBindings "post-login" []]).
Proof.
  refine (proj1 (trigger_delete_unbinds (λ bs : list string, bs)
                   (mkTriggerData "post-login" "post-login" ["act_1"]
                      (Some ["act_1"; "act_2"]))
                   (mkTriggers {[ "post-login" := ["act_1"; "act_2"] ]} []) eq_refl _)).
  by exists ["act_1"; "act_2"].
Defined.

End TriggerBindingWitnesses.

(** * Part VI: further properties of interleaved handlers *)

Section InterleavingFurther.
Context {W : Type} `{ManagementAPI W}.

(** A thread whose next effect is no lock can take a step. *)
Lemma step_thread_unless_lock (i : nat) (t : thread) (s : system W) :
  threads s !! i = Some t →
  (∀ a, code t ≠ Ret a) → (∀ key next, code t ≠ Lock key next) →
  is_Some (step_thread i s).
Proof.
  intros Ht Hret Hlock. unfold step_thread. rewrite Ht.
  destruct (code t) as [a|key next|key next|id next|id clients next|next].
  - by destruct (Hret a).
  - by destruct (Hlock key next).
  - done.
  - by destruct (api_read id (world s)).
  - by destruct (api_update id clients (world s)).
  - by destruct (api_unique_id (world s)).
Qed.

(** X13. An observing handler takes no lock and never waits: in every
    state that the interleaved handlers can reach, a thread that runs
    [readConnectionClient] and has not returned can take its next step,
    whatever keys the other threads hold. *)
Theorem observer_never_waits (jobs : list job) (w : W) (s : system W)
    (i : nat) (data : ResourceData) (t : thread) :
  reachable (spawn jobs w) s →
  jobs !! i = Some (Observe data) → threads s !! i = Some t →
  (∀ a, code t ≠ Ret a) →
  is_Some (step_thread i s) ∧ ∀ key, holds key (history t) = false.
Proof.
  intros Hreach Hjob Ht Hret.
  destruct (system_ok_reachable jobs _ _ (system_ok_spawn jobs w) Hreach) as [Hall _].
  destruct (Forall2_lookup_l _ _ _ _ _ Hall Hjob) as (t0 & Ht0 & ph & Hd & Hshape).
  assert (t0 = t) as -> by congruence. cbn [reconciles] in *. split.
  - apply (step_thread_unless_lock i t); [done..|].
    intros key next Hcode. rewrite Hcode in Hd. by inversion Hd.
  - intros key. destruct (holds key (history t)) eqn:Hh; [|done].
    apply (shape_holds _ _ key _ _ Hshape) in Hh as [_ ->]. by destruct Hshape.
Qed.

(** X14. The interleaved handlers never deadlock: in every state they can
    reach, as long as some thread has not returned, some thread can take
    a step. *)
Theorem handlers_never_deadlock (jobs : list job) (w : W) (s : system W)
    (i : nat) (t : thread) :
  reachable (spawn jobs w) s →
  threads s !! i = Some t → (∀ a, code t ≠ Ret a) →
  ∃ j s', step_thread j s = Some s'.
Proof.
  intros Hreach Ht Hret.
  destruct (system_ok_reachable jobs _ _ (system_ok_spawn jobs w) Hreach)
    as [Hall [Htbl _]].
  assert (Hmoves : ∀ j tj, threads s !! j = Some tj → (∀ a, code tj ≠ Ret a) →
                     (∀ key next, code tj ≠ Lock key next) →
                     ∃ j s', step_thread j s = Some s').
  { intros j tj Hj Hr Hl. exists j. by apply (step_thread_unless_lock j tj). }
  destruct (code t) as [a|key next|key next|id next|id clients next|next] eqn:Hcode.
  1: by destruct (Hret a).
  2-5: apply (Hmoves i t Ht); intros; congruence.
  destruct (mutex.held (table s) key) eqn:Hheld.
  - apply Htbl in Hheld as (j & tj & Hj & Hh).
    destruct (Forall2_lookup_r _ _ _ _ _ Hall Hj) as (job & _ & ph & Hd & Hshape).
    pose proof (proj1 (shape_holds _ _ key _ _ Hshape) Hh) as [_ ->].
    destruct Hshape as [Hg _]. rewrite Hg in Hd. cbn [end_phase] in Hd.
    apply (Hmoves j tj Hj).
    + intros a Ha. rewrite Ha in Hd. by inversion Hd.
    + intros k n Hk. rewrite Hk in Hd. by inversion Hd.
  - exists i. unfold step_thread, mutex.Lock. rewrite Ht, Hcode, Hheld. by eexists.
Qed.

End InterleavingFurther.

Section InterleavingFurtherWitnesses.
Import reference.

(** X13 while another thread holds the lock of the observed parent. *)
Lemma observer_never_waits_witness :
  ∃ s t,
    run_schedule [0; 0]
      (spawn [Establish (sample.membership "con_1" "cli_B");
              Observe (sample.membership "con_1" "cli_B")] sample.two_connections)
    = Some s
    ∧ in_section (threads s) 0 "con_1"
    ∧ threads s !! 1 = Some t
    ∧ is_Some (step_thread 1 s).
Proof.
  destruct (run_schedule [0; 0]
              (spawn [Establish (sample.membership "con_1" "cli_B");
                      Observe (sample.membership "con_1" "cli_B")]
                 sample.two_connections)) as [s|] eqn:Hrun; [|discriminate Hrun].
  pose proof (run_schedule_reachable _ _ _ Hrun) as Hreach.
  pose proof (λ t, observer_never_waits _ _ s 1 (sample.membership "con_1" "cli_B") t
                     Hreach) as Hobs.
  vm_compute in Hrun. injection Hrun as <-.
  eexists _, _. split; [reflexivity|]. split; [eexists; split; reflexivity|].
  split; [reflexivity|].
  apply (Hobs _ eq_refl eq_refl). intros a Ha. discriminate Ha.
Defined.

(** X14 while thread 1 waits for the key that thread 0 holds. *)
Lemma handlers_never_deadlock_witness :
  ∃ s,
    run_schedule [0; 0] (spawn sample.jobs sample.two_connections) = Some s
    ∧ step_thread 1 s = None
    ∧ ∃ j s', step_thread j s = Some s'.
Proof.
  destruct (run_schedule [0; 0] (spawn sample.jobs sample.two_connections))
    as [s|] eqn:Hrun; [|discriminate Hrun].
  pose proof (run_schedule_reachable _ _ _ Hrun) as Hreach.
  pose proof (λ t, handlers_never_deadlock _ _ s 1 t Hreach) as Hlive.
  vm_compute in Hrun. injection Hrun as <-.
  eexists. split; [reflexivity|]. split; [reflexivity|].
  eapply Hlive; [reflexivity|]. intros a Ha. discriminate Ha.
Defined.

End InterleavingFurtherWitnesses.

(** * Part VII: no lost update *)

Lemma no_update_read_then_unlock (data : ResourceData) (key : string) :
  no_update (bind (readConnectionClient data) (λ r, Unlock key (Ret r))).
Proof.
  unfold readConnectionClient. cbn [bind]. constructor. intros [err|c].
  - destruct (is_not_found err); cbn [bind]; repeat constructor.
  - destruct (negb _); cbn [bind]; repeat constructor.
Qed.

Lemma no_update_read (data : ResourceData) : no_update (readConnectionClient data).
Proof.
  unfold readConnectionClient. constructor. intros [err|c].
  - destruct (is_not_found err); constructor.
  - destruct (negb _); constructor.
Qed.

(** The handler of a reconciling job locks its parent and then fetches it. *)
Lemma handler_locks_then_fetches (j : job) :
  reconciles j = true →
  ∃ next, handler j = Lock (parent j) next ∧ fetches j next.
Proof.
  destruct j as [data|data|data]; [|done|]; intros _; cbn [handler parent].
  - unfold createConnectionClient, defer_Unlock. cbn [bind].
    eexists. split; [reflexivity|]. eexists. split; [reflexivity|]. split.
    + intros err. cbn [bind]. repeat constructor.
    + intros c. cbn [bind write_of]. eexists. split; [reflexivity|].
      intros [err|]; cbn [bind]; [repeat constructor|].
      constructor. intros uid. apply no_update_read_then_unlock.
  - unfold deleteConnectionClient, defer_Unlock. cbn [bind].
    eexists. split; [reflexivity|]. eexists. split; [reflexivity|]. split.
    + intros err. destruct (is_not_found err); cbn [bind]; repeat constructor.
    + intros c. cbn [bind write_of]. eexists. split; [reflexivity|].
      intros [err|]; [destruct (is_not_found err)|]; cbn [bind]; repeat constructor.
Qed.

Lemma stage_spawn (p m : string) (σ : gmap string Connection) (j : job) :
  (targets p m j → reconciles j = true) →
  stage p m σ j (mkThread (handler j) []).
Proof.
  intros Ht. destruct (reconciles j) eqn:Hr; [by left|].
  right. right. right. split.
  - destruct j as [data|data|data]; try done. apply no_update_read.
  - intros Htj. by apply Ht in Htj.
Qed.

Section NoLostUpdate.
Import reference.
Variables p m : string.

Lemma keeping_spawn (jobs : list job) (r : Remote) :
  faults r = [] → is_Some (store r !! p) → keeping p m jobs (spawn jobs r).
Proof.
  intros Hf Hp. split; [apply system_ok_spawn|]. split; [done|]. split; [done|].
  cbn. induction jobs as [|j jobs IH]; constructor; [|done].
  apply stage_spawn. by intros (data & -> & _).
Qed.

(** A thread that is about to write is inside the section of its parent. *)
Lemma update_inside (j : job) (t : thread) (id : string) (clients : list string)
    (k : option error → prog (Diagnostics * ResourceData)) :
  thread_ok j t → reconciles j = true → code t = Update id clients k →
  holds (parent j) (history t) = true.
Proof.
  intros (ph & Hd & Hshape) Hr Hcode. rewrite Hcode, Hr in Hd.
  apply (shape_holds _ _ (parent j) _ _ Hshape). split; [done|]. by inversion Hd.
Qed.

(** A write by another thread, in its own section, keeps the stage of a
    thread. *)
Lemma stage_other_write (jobs : list job) (σ : gmap string Connection)
    (j j' : job) (t' : thread) (c : Connection) :
  unrivalled p m jobs → (∃ i, jobs !! i = Some j) → reconciles j = true →
  σ !! parent j = Some c →
  (∀ c' k, reconciles j' = true → σ !! parent j' = Some c' →
           code t' = Update (parent j') (write_of j' c') k → parent j' ≠ parent j) →
  stage p m σ j' t' →
  stage p m
    (<[parent j := mkConnection (ID c) (Name c) (Strategy c) (write_of j c)]> σ) j' t'.
Proof.
  intros Hunr [i Hj] Hr Hc Hother [?|[?|[(Hr' & c' & k & Hc' & Hcode & Hk)|[Hnu Hkept]]]].
  - by left.
  - by right; left.
  - right; right; left. split; [done|]. exists c', k.
    rewrite lookup_insert_ne by (intros Heq; by eapply Hother). done.
  - right; right; right. split; [done|]. intros Ht.
    destruct (Hkept Ht) as (c0 & Hc0 & Hin). unfold kept.
    destruct (decide (parent j = p)) as [Hp|Hp].
    + rewrite <- Hp, lookup_insert_eq. eexists. split; [done|].
      rewrite <- Hp, Hc in Hc0. injection Hc0 as <-. cbn [EnabledClients].
      destruct j as [data|data|data]; [|done|]; cbn [write_of parent] in *.
      * apply elem_of_app. by left.
      * rewrite drop_client_filter. apply list_elem_of_filter. split; [|done].
        intros Heq. by apply (Hunr i data Hj Hp).
    + rewrite lookup_insert_ne by done. by exists c0.
Qed.

Lemma keeping_step (jobs : list job) (i : nat) (s s' : system Remote) :
  unrivalled p m jobs → keeping p m jobs s → step_thread i s = Some s' →
  keeping p m jobs s'.
Proof.
  intros Hunr (Hok & Hf & Hp & Hst) Hstep.
  split; [by eapply system_ok_step|].
  unfold step_thread, advance in Hstep.
  destruct (threads s !! i) as [t|] eqn:Ht; [|done].
  destruct (Forall2_lookup_r _ _ _ _ _ Hst Ht) as (j & Hj & Hstage).
  destruct Hok as [Hall [_ Hex]].
  assert (Hsame : ∀ (w' : Remote) (t' : thread) (tbl : mutex.KeyValue),
             store w' = store (world s) → faults w' = [] →
             stage p m (store (world s)) j t' →
             faults (world (mkSystem (<[i:=t']> (threads s)) tbl w')) = []
             ∧ is_Some (store (world (mkSystem (<[i:=t']> (threads s)) tbl w')) !! p)
             ∧ Forall2 (stage p m (store (world (mkSystem (<[i:=t']> (threads s)) tbl w'))))
                 jobs (threads (mkSystem (<[i:=t']> (threads s)) tbl w'))).
  { intros w' t' tbl Hs' Hf' Hst'. cbn [world threads]. rewrite Hs'.
    split; [done|]. split; [done|].
    rewrite <- (list_insert_id jobs i j Hj). by apply Forall2_insert. }
  unfold stage in Hstage.
  destruct (code t) as [a|key next|key next|id next|id clients next|next] eqn:Hcode.
  - done.
  - destruct (mutex.Lock (table s) key) as [tbl|]; [|done]. injection Hstep as <-.
    apply Hsame; [done|done|]. unfold stage. cbn [code].
    destruct Hstage as [[Hr Hh]|[[Hr (k & Hk & _)]|[[Hr (c & k & _ & Hk & _)]|[Hnu Hkept]]]];
      try discriminate.
    + destruct (handler_locks_then_fetches j Hr) as (nx & Hnx & Hfe).
      rewrite Hnx in Hh. injection Hh as _ ->. by right; left.
    + right; right; right. split; [by inversion Hnu|done].
  - injection Hstep as <-.
    apply Hsame; [done|done|]. unfold stage. cbn [code].
    destruct Hstage as [[Hr Hh]|[[Hr (k & Hk & _)]|[[Hr (c & k & _ & Hk & _)]|[Hnu Hkept]]]];
      try discriminate.
    + destruct (handler_locks_then_fetches j Hr) as (nx & Hnx & Hfe).
      rewrite Hnx in Hh. discriminate.
    + right; right; right. split; [by inversion Hnu|done].
  - cbn [api_read remote_api] in Hstep. rewrite remote_read_honest in Hstep by done.
    injection Hstep as <-.
    apply Hsame; [done|done|]. unfold stage. cbn [code].
    destruct Hstage as [[Hr Hh]|[[Hr (k & Hk & Herr & Hfetched)]|
                        [[Hr (c & k & _ & Hk & _)]|[Hnu Hkept]]]];
      try discriminate.
    + destruct (handler_locks_then_fetches j Hr) as (nx & Hnx & Hfe).
      rewrite Hnx in Hh. discriminate.
    + injection Hk as -> ->.
      destruct (store (world s) !! parent j) as [c|] eqn:Hc.
      * destruct (Hfetched c) as (k' & Hk' & Hnu). right; right; left.
        split; [done|]. by exists c, k'.
      * right; right; right. split; [apply Herr|].
        intros (data & -> & Hpd & _). cbn [parent] in Hc. rewrite Hpd in Hc.
        rewrite Hc in Hp. by destruct Hp.
    + right; right; right. split; [|done]. inversion Hnu as [| | |id' next' Hn|]; subst.
      apply Hn.
  - destruct Hstage as [[Hr Hh]|[[Hr (k & Hk & _)]|[[Hr (c & k & Hc & Hk & Hnu)]|[Hnu _]]]];
      try discriminate.
    + destruct (handler_locks_then_fetches j Hr) as (nx & Hnx & Hfe).
      rewrite Hnx in Hh. discriminate.
    + injection Hk as -> -> ->.
      cbn [api_update remote_api] in Hstep.
      rewrite remote_update_honest, Hc in Hstep by done. injection Hstep as <-.
      cbn [world threads store faults].
      split; [done|]. split.
      { destruct (decide (parent j = p)) as [<-|Hne].
        - by rewrite lookup_insert_eq.
        - by rewrite lookup_insert_ne. }
      apply Forall2_same_length_lookup. split.
      { rewrite length_insert. by eapply Forall2_length. }
      intros i' j' t' Hj' Ht'.
      destruct (decide (i' = i)) as [->|Hne].
      * rewrite list_lookup_insert_eq in Ht' by (by eapply lookup_lt_Some).
        injection Ht' as <-. assert (j' = j) as -> by congruence.
        unfold stage. cbn [code]. right; right; right. split; [apply Hnu|].
        intros (data & -> & Hpd & Hmd). cbn [parent write_of] in *.
        exists (mkConnection (ID c) (Name c) (Strategy c)
                  (EnabledClients c ++ [Get data "client_id"])).
        rewrite <- Hpd, lookup_insert_eq. split; [done|]. cbn [EnabledClients].
        apply elem_of_app. right. rewrite Hmd. apply list_elem_of_here.
      * rewrite list_lookup_insert_ne in Ht' by done.
        pose proof (Forall2_lookup_lr _ _ _ _ _ _ Hst Hj' Ht') as Hst'.
        apply (stage_other_write jobs); try done; [by exists i|].
        intros c' k' Hr' Hc' Hcode' Heq. apply Hne.
        pose proof (Forall2_lookup_lr _ _ _ _ _ _ Hall Hj' Ht') as Hok'.
        pose proof (Forall2_lookup_lr _ _ _ _ _ _ Hall Hj Ht) as Hoki.
        apply (Hex i' i (parent j)).
        -- exists t'. split; [done|]. rewrite <- Heq. by eapply update_inside.
        -- exists t. split; [done|]. by eapply update_inside.
    + by inversion Hnu.
  - cbn [api_unique_id remote_api remote_unique_id] in Hstep. injection Hstep as <-.
    apply Hsame; [done|done|]. unfold stage. cbn [code].
    destruct Hstage as [[Hr Hh]|[[Hr (k & Hk & _)]|[[Hr (c & k & _ & Hk & _)]|[Hnu Hkept]]]];
      try discriminate.
    + destruct (handler_locks_then_fetches j Hr) as (nx & Hnx & Hfe).
      rewrite Hnx in Hh. discriminate.
    + right; right; right. split; [|done]. inversion Hnu as [| | | |next' Hn]; subst.
      apply Hn.
Qed.

Lemma keeping_reachable (jobs : list job) (s s' : system Remote) :
  unrivalled p m jobs → keeping p m jobs s → reachable s s' → keeping p m jobs s'.
Proof.
  intros Hunr Hk Hreach. induction Hreach as [s|s s1 s2 [i Hstep] _ IH]; [done|].
  apply IH. by eapply keeping_step.
Qed.

(** X15. No lost update. On a remote that answers every call, holding the
    connection [p], let any number of [createConnectionClient],
    [readConnectionClient] and [deleteConnectionClient] handlers run
    concurrently, none of them removing client [m] from [p]. In every
    state that any interleaving reaches, once a handler that establishes
    [m] on [p] has returned, the connection [p] lists [m] among its
    enabled clients, whatever the other handlers wrote to [p] before or
    after. *)
Theorem no_lost_update (jobs : list job) (r : Remote) (s : system Remote)
    (i : nat) (data : ResourceData) (t : thread)
    (a : Diagnostics * ResourceData) :
  faults r = [] → is_Some (store r !! p) → unrivalled p m jobs →
  reachable (spawn jobs r) s →
  jobs !! i = Some (Establish data) →
  Get data "connection_id" = p → Get data "client_id" = m →
  threads s !! i = Some t → code t = Ret a →
  ∃ c, store (world s) !! p = Some c ∧ m ∈ EnabledClients c.
Proof.
  intros Hf Hp Hunr Hreach Hj Hpd Hmd Ht Hcode.
  destruct (keeping_reachable jobs _ s Hunr (keeping_spawn jobs r Hf Hp) Hreach)
    as (_ & _ & _ & Hst).
  pose proof (Forall2_lookup_lr _ _ _ _ _ _ Hst Hj Ht) as Hstage.
  destruct Hstage as [[_ Hh]|[[_ (k & Hk & _)]|[[_ (c & k & _ & Hk & _)]|[_ Hkept]]]].
  - rewrite Hcode in Hh. destruct (handler_locks_then_fetches (Establish data) eq_refl)
      as (nx & Hnx & _). rewrite Hnx in Hh. discriminate.
  - rewrite Hcode in Hk. discriminate.
  - rewrite Hcode in Hk. discriminate.
  - apply Hkept. by exists data.
Qed.

End NoLostUpdate.

Section NoLostUpdateWitness.
Import reference.

(** X15 on con_1, after the establishment of cli_B has returned and the
    establishment of cli_C has run after it. *)
Lemma no_lost_update_witness :
  ∃ s c,
    run_schedule [0; 0; 0; 0; 0; 0; 1; 1; 1; 1; 1; 1]
      (concurrent.spawn sample.jobs sample.two_connections) = Some s
    ∧ reference.store (concurrent.world s) !! "con_1" = Some c
    ∧ "cli_B" ∈ EnabledClients c.
Proof.
  assert (Hrun : ∃ s, run_schedule [0; 0; 0; 0; 0; 0; 1; 1; 1; 1; 1; 1]
                        (concurrent.spawn sample.jobs sample.two_connections) = Some s)
    by (vm_compute; eexists; reflexivity).
  destruct Hrun as [s Hrun].
  pose proof (run_schedule_reachable _ _ _ Hrun) as Hreach.
  assert (Hf : reference.faults sample.two_connections = []) by reflexivity.
  assert (Hp : is_Some (reference.store sample.two_connections !! "con_1"))
    by (eexists; vm_compute; reflexivity).
  assert (Hunr : unrivalled "con_1" "cli_B" sample.jobs).
  { intros [|[|[|i]]] data Hi; try discriminate Hi.
    injection Hi as <-. intros Hpd. vm_compute in Hpd. discriminate Hpd. }
  assert (Hj : sample.jobs !! 0 = Some (concurrent.Establish (sample.membership "con_1" "cli_B")))
    by reflexivity.
  assert (Hpd : Get (sample.membership "con_1" "cli_B") "connection_id" = "con_1")
    by (vm_compute; reflexivity).
  assert (Hmd : Get (sample.membership "con_1" "cli_B") "client_id" = "cli_B")
    by (vm_compute; reflexivity).
  pose proof (λ t a, no_lost_update "con_1" "cli_B" sample.jobs sample.two_connections
                       s 0 _ t a Hf Hp Hunr Hreach Hj Hpd Hmd) as Hkeep.
  pose proof Hrun as Hsched.
  vm_compute in Hrun. injection Hrun as <-.
  edestruct Hkeep as (c & Hc & Hin); [vm_compute; reflexivity|reflexivity|].
  eexists _, c. split; [exact Hsched|]. split; [exact Hc|exact Hin].
Defined.
End NoLostUpdateWitness.
